(** * The go-micro service lifecycle (service.go), embedded and verified

    The file embeds [service.go]: the [service] struct with its one-time
    gate, [newService], [Init], [Start], [Stop], [Run] and
    [registerAuthAccount].  The collaborators the service drives (server,
    auth, store, registry, runtime, command parser, plugin loader, profiler,
    hooks) live outside [service.go]; every call to one of them is recorded
    in a chronological trace together with the result it gave, and the
    result itself is supplied by an environment of oracles that may depend
    on everything that happened before. *)

From Stdlib Require Import String Ascii List Bool Arith Lia.
Import ListNotations.
Open Scope string_scope.
Open Scope list_scope.

Set Implicit Arguments.

(* ================================================================== *)
(** ** Go library functions on strings *)

(** [strings.HasPrefix(s, prefix)]. *)
Fixpoint HasPrefix (s prefix : string) {struct prefix} : bool :=
  match prefix with
  | EmptyString => true
  | String a prefix' =>
      match s with
      | EmptyString => false
      | String b s' => Ascii.eqb a b && HasPrefix s' prefix'
      end
  end.

(** [strings.Contains(s, substr)]: [substr] occurs somewhere in [s]. *)
Fixpoint Contains (s substr : string) : bool :=
  if HasPrefix s substr then true
  else match s with
       | EmptyString => false
       | String _ s' => Contains s' substr
       end.

(** [strings.Split(s, sep)] for a one-byte separator, accumulating the
    current piece in [cur]; the empty string splits into one empty piece. *)
Fixpoint split_from (sep : ascii) (cur s : string) : list string :=
  match s with
  | EmptyString => [cur]
  | String c s' =>
      if Ascii.eqb c sep then cur :: split_from sep EmptyString s'
      else split_from sep (cur ++ String c EmptyString) s'
  end.

Definition Split (s : string) (sep : ascii) : list string :=
  split_from sep EmptyString s.

(** [fmt.Sprintf("%v-%v", a, b)] on two strings. *)
Definition Sprintf_v_dash_v (a b : string) : string := a ++ "-" ++ b.

(* ================================================================== *)
(** ** Data model *)

Definition error := string.

(** A Go [(T, error)] result pair. *)
Inductive result (A : Type) : Type :=
| Ok (a : A)
| Err (e : error).
Arguments Ok {A} a.
Arguments Err {A} e.

(** The outbound client and the decorators of [util/wrapper] around it. *)
Inductive client : Type :=
| BaseClient (label : string)
| FromService (name : string) (c : client)
| TraceCall (name : string) (c : client)
| AuthClient (name id : string) (c : client).

(** The handler decorators of [util/wrapper] handed to [server.WrapHandler]. *)
Inductive handler_wrapper : Type :=
| HandlerStats
| TraceHandler
| AuthHandler
| CustomWrapper (label : string).

(** What [Server.Options()] exposes to the service. *)
Record server : Type := mkServer {
  srv_Name : string;
  srv_Id : string;
  srv_HdlrWrappers : list handler_wrapper
}.

(** What [Auth.Options()] exposes to the service. *)
Record auth : Type := mkAuth {
  auth_label : string;
  auth_Namespace : string
}.

(** The command parser as the service sees it: [Cmd.App()], of which only
    the name is read and written. *)
Record cmd : Type := mkCmd {
  App_Name : string
}.

(** Collaborators the service only passes around are known by a label. *)
Definition collaborator := string.

Record account : Type := mkAccount {
  acc_ID : string;
  acc_Secret : string
}.

Definition token := string.
Definition plugin_config := string.

Inductive store_option : Type :=
| Table (name : string)
| Store_WithClient (c : client).

Inductive auth_option : Type :=
| Auth_WithClient (c : client)
| ClientToken (tk : token).

(** One call made to a collaborator, with the result it gave back. *)
Inductive event : Type :=
| EvPluginLoad (p : string) (r : result plugin_config)
| EvPluginInit (c : plugin_config) (r : option error)
| EvFatal (e : error)
| EvCmdInit (c : cmd) (r : option error)
| EvStoreInit (st : collaborator) (o : store_option) (r : option error)
| EvAuthInit (a : auth) (o : auth_option) (r : option error)
| EvRegistryInit (rg : collaborator) (c : client) (r : option error)
| EvRuntimeInit (rt : collaborator) (c : client) (r : option error)
| EvAuthGenerate (a : auth) (name : string) (roles : list string)
                 (namespace : string) (r : result account)
| EvAuthToken (a : auth) (id secret : string) (r : result token)
| EvServerHandle (srv : server) (r : option error)
| EvServerStart (srv : server) (r : option error)
| EvServerStop (srv : server) (r : option error)
| EvProfileStart (p : collaborator) (r : option error)
| EvProfileStop (p : collaborator) (r : option error)
| EvHook (label : string) (r : option error)
| EvShutdownRequested
| EvSetMutexProfileFraction (rate : nat)
| EvSetBlockProfileRate (rate : nat).

Definition trace := list event.

(** A lifecycle hook, [func() error]: a label to recognise it in the trace
    and its outcome, which may depend on all that happened before. *)
Record hook : Type := mkHook {
  hook_label : string;
  hook_fn : trace -> option error
}.

(** The [Options] struct, with the fields [service.go] touches. *)
Record Options : Type := mkOptions {
  Auth : auth;
  Broker : collaborator;
  Cmd : cmd;
  Client : client;
  Config : collaborator;
  Server : server;
  Store : collaborator;
  Registry : collaborator;
  Runtime : collaborator;
  Transport : collaborator;
  Profile : option collaborator;
  BeforeStart : list hook;
  BeforeStop : list hook;
  AfterStart : list hook;
  AfterStop : list hook;
  Context : string;
  Signal : bool
}.

(** The Go type [Option]: a function that updates an [Options] in place. *)
Definition Option := Options -> Options.

Definition with_Client (c : client) (o : Options) : Options :=
  mkOptions (Auth o) (Broker o) (Cmd o) c (Config o) (Server o) (Store o)
            (Registry o) (Runtime o) (Transport o) (Profile o)
            (BeforeStart o) (BeforeStop o) (AfterStart o) (AfterStop o)
            (Context o) (Signal o).

Definition with_Server (s : server) (o : Options) : Options :=
  mkOptions (Auth o) (Broker o) (Cmd o) (Client o) (Config o) s (Store o)
            (Registry o) (Runtime o) (Transport o) (Profile o)
            (BeforeStart o) (BeforeStop o) (AfterStart o) (AfterStop o)
            (Context o) (Signal o).

Definition with_Cmd (c : cmd) (o : Options) : Options :=
  mkOptions (Auth o) (Broker o) c (Client o) (Config o) (Server o) (Store o)
            (Registry o) (Runtime o) (Transport o) (Profile o)
            (BeforeStart o) (BeforeStop o) (AfterStart o) (AfterStop o)
            (Context o) (Signal o).

(** The ten fields whose addresses [Init] hands to [Cmd.Init]. *)
Record cmd_bindings : Type := mkBindings {
  b_Auth : auth;
  b_Broker : collaborator;
  b_Registry : collaborator;
  b_Runtime : collaborator;
  b_Transport : collaborator;
  b_Client : client;
  b_Config : collaborator;
  b_Server : server;
  b_Store : collaborator;
  b_Profile : option collaborator
}.

Definition bindings_of (o : Options) : cmd_bindings :=
  mkBindings (Auth o) (Broker o) (Registry o) (Runtime o) (Transport o)
             (Client o) (Config o) (Server o) (Store o) (Profile o).

Definition with_bindings (b : cmd_bindings) (o : Options) : Options :=
  mkOptions (b_Auth b) (b_Broker b) (Cmd o) (b_Client b) (b_Config b)
            (b_Server b) (b_Store b) (b_Registry b) (b_Runtime b)
            (b_Transport b) (b_Profile b)
            (BeforeStart o) (BeforeStop o) (AfterStart o) (AfterStop o)
            (Context o) (Signal o).

(** [type service struct { opts Options; once sync.Once }]; [once_done]
    is the flag of the [sync.Once]. *)
Record service : Type := mkService {
  opts : Options;
  once_done : bool
}.

(* ================================================================== *)
(** ** The environment: what the collaborators answer *)

Record Env : Type := mkEnv {
  os_Getenv : string -> string;
  plugin_Load : trace -> string -> result plugin_config;
  plugin_Init : trace -> plugin_config -> option error;
  Cmd_Init : trace -> cmd -> cmd_bindings -> result (cmd * cmd_bindings);
  Store_Init : trace -> collaborator -> store_option -> option error;
  Auth_Init : trace -> auth -> auth_option -> option error;
  Registry_Init : trace -> collaborator -> client -> option error;
  Runtime_Init : trace -> collaborator -> client -> option error;
  Auth_Generate : trace -> auth -> string -> list string -> string ->
                  result account;
  Auth_Token : trace -> auth -> string -> string -> result token;
  Server_Handle : trace -> server -> option error;
  Server_Start : trace -> server -> option error;
  Server_Stop : trace -> server -> option error;
  Profile_Start : trace -> collaborator -> option error;
  Profile_Stop : trace -> collaborator -> option error;
  signal_pending : trace -> bool;
  Context_Done : trace -> string -> bool
}.

(* ================================================================== *)
(** ** A small monad: the trace is threaded, the process may exit or block *)

Inductive outcome (A : Type) : Type :=
| Ret (a : A) (t : trace)      (* the call returned [a] *)
| Exit (t : trace)             (* [logger.Fatal]: the process terminated *)
| Hang (t : trace).            (* the call blocks for ever *)
Arguments Ret {A} a t.
Arguments Exit {A} t.
Arguments Hang {A} t.

Definition M (A : Type) : Type := trace -> outcome A.

Definition ret {A} (a : A) : M A := fun t => Ret a t.

Definition bind {A B} (m : M A) (k : A -> M B) : M B :=
  fun t => match m t with
           | Ret a t' => k a t'
           | Exit t' => Exit t'
           | Hang t' => Hang t'
           end.

Notation "x <- m ;; k" := (bind m (fun x => k))
  (at level 61, m at next level, right associativity).
Notation "m ;;; k" := (bind m (fun _ => k))
  (at level 61, right associativity).

(** Ask an oracle at the current trace and record the call with its answer. *)
Definition call {A} (ask : trace -> A) (ev : A -> event) : M A :=
  fun t => let r := ask t in Ret r (t ++ [ev r]).

(** A call that gives nothing back the caller looks at. *)
Definition emit (ev : event) : M unit :=
  fun t => Ret tt (t ++ [ev]).

(** [logger.Fatal(err)]: log, then [os.Exit(1)]. *)
Definition Fatal {A} (e : error) : M A :=
  fun t => Exit (t ++ [EvFatal e]).

Definition trace_of {A} (o : outcome A) : trace :=
  match o with
  | Ret _ t => t
  | Exit t => t
  | Hang t => t
  end.

(* ================================================================== *)
(** ** The server's handler wrap list *)

(** Modelled from the spec: [server.Init] and [server.WrapHandler] are not
    part of [service.go].  Section 4.2 describes "a server-side wrap list
    ... in the order registered": each [WrapHandler] option appends its
    wrapper to the list the server already holds. *)
Definition Server_Init_WrapHandler (ws : list handler_wrapper)
                                   (srv : server) : server :=
  mkServer (srv_Name srv) (srv_Id srv) (srv_HdlrWrappers srv ++ ws).

Inductive handler : Type :=
| UserHandler (label : string)
| Wrapped (w : handler_wrapper) (h : handler).

(** Modelled from the spec: how the server dispatches through its wrap list
    is not part of [service.go].  Section 4.2: the list is "executed
    outermost-to-innermost in the order registered", so the wrapper
    registered first is the outermost around the user's handler. *)
Definition effective_handler (srv : server) (h : handler) : handler :=
  fold_right Wrapped h (srv_HdlrWrappers srv).

(** A layer on the path of a call or of a request. *)
Inductive layer : Type :=
| L_stats
| L_trace
| L_auth
| L_from_service
| L_custom (label : string)
| L_user_handler (label : string)
| L_base_client (label : string).

(** The layers a request crosses, outermost first. *)
Fixpoint inbound_path (h : handler) : list layer :=
  match h with
  | UserHandler l => [L_user_handler l]
  | Wrapped HandlerStats h' => L_stats :: inbound_path h'
  | Wrapped TraceHandler h' => L_trace :: inbound_path h'
  | Wrapped AuthHandler h' => L_auth :: inbound_path h'
  | Wrapped (CustomWrapper l) h' => L_custom l :: inbound_path h'
  end.

(** The layers an outbound call crosses, outermost first: a decorator's
    [Call] does its work and then calls the client it wraps. *)
Fixpoint outbound_path (c : client) : list layer :=
  match c with
  | BaseClient l => [L_base_client l]
  | FromService _ c' => L_from_service :: outbound_path c'
  | TraceCall _ c' => L_trace :: outbound_path c'
  | AuthClient _ _ c' => L_auth :: outbound_path c'
  end.

(* ================================================================== *)
(** ** service.go *)

(** [newService].  [newOptions] (options.go) is taken as a parameter.  The
    closure [authFn] only defers the read of the server's auth to call
    time and carries no data of its own. *)
Definition newService (newOptions : list Option -> Options)
                      (ov : list Option) : service :=
  let options := newOptions ov in
  let serviceName := srv_Name (Server options) in
  let options :=
    with_Client (FromService serviceName (Client options)) options in
  let options :=
    with_Client (TraceCall serviceName (Client options)) options in
  let options :=
    with_Client (AuthClient serviceName (srv_Id (Server options))
                            (Client options)) options in
  let options :=
    with_Server (Server_Init_WrapHandler
                   [HandlerStats; TraceHandler; AuthHandler]
                   (Server options)) options in
  mkService options false.

Definition Name (s : service) : string := srv_Name (Server (opts s)).
Definition service_Options (s : service) : Options := opts s.
Definition service_Client (s : service) : client := Client (opts s).
Definition service_Server (s : service) : server := Server (opts s).
Definition service_String (s : service) : string := "micro".

(** [for _, o := range opts { o(&s.opts) }] *)
Definition apply_options (ov : list Option) (o : Options) : Options :=
  fold_left (fun acc (f : Option) => f acc) ov o.

Definition error_of {A} (r : result A) : option error :=
  match r with
  | Ok _ => None
  | Err e => Some e
  end.

(** The role [registerAuthAccount] asks for, decided from the service's
    name (the [serviceType] variable and its two tests). *)
Definition serviceType (name : string) : string :=
  if Contains name "api" then "api"
  else if Contains name "web" then "web"
  else "service".

Section WithEnv.

Variable env : Env.

(** The plugin loop of [Init], over the pieces of [MICRO_PLUGIN]. *)
Fixpoint load_plugins (ps : list string) : M unit :=
  match ps with
  | [] => ret tt
  | p :: ps' =>
      if Nat.eqb (String.length p) 0 then load_plugins ps'
      else
        r <- call (fun t => plugin_Load env t p) (EvPluginLoad p) ;;
        match r with
        | Err e => Fatal e
        | Ok c =>
            r' <- call (fun t => plugin_Init env t c) (EvPluginInit c) ;;
            match r' with
            | Some e => Fatal e
            | None => load_plugins ps'
            end
        end
  end.

(** The function handed to [s.once.Do], first part: plugins, application
    name, command flags.  It returns the options it leaves in [s.opts]. *)
Definition Init_bootstrap (o : Options) : M Options :=
  (* setup the plugins *)
  load_plugins (Split (os_Getenv env "MICRO_PLUGIN") ",") ;;;
  (* set cmd name *)
  let o := if Nat.eqb (String.length (App_Name (Cmd o))) 0
           then with_Cmd (mkCmd (srv_Name (Server o))) o
           else o in
  (* initialise the command flags, overriding new service *)
  r <- call (fun t => Cmd_Init env t (Cmd o) (bindings_of o))
            (fun r => EvCmdInit (Cmd o) (error_of r)) ;;
  match r with
  | Err e => Fatal e
  | Ok (c', b) => ret (with_bindings b (with_Cmd c' o))
  end.

(** The function handed to [s.once.Do], second part: the store's table and
    the client of the four micro clients; what these calls answer is
    dropped. *)
Definition Init_wire (o : Options) : M Options :=
  (* explicitly set the table name to the service name *)
  let name := App_Name (Cmd o) in
  call (fun t => Store_Init env t (Store o) (Table name))
       (EvStoreInit (Store o) (Table name)) ;;;
  (* set the client for the micro clients *)
  call (fun t => Auth_Init env t (Auth o) (Auth_WithClient (Client o)))
       (EvAuthInit (Auth o) (Auth_WithClient (Client o))) ;;;
  call (fun t => Registry_Init env t (Registry o) (Client o))
       (EvRegistryInit (Registry o) (Client o)) ;;;
  call (fun t => Runtime_Init env t (Runtime o) (Client o))
       (EvRuntimeInit (Runtime o) (Client o)) ;;;
  call (fun t => Store_Init env t (Store o) (Store_WithClient (Client o)))
       (EvStoreInit (Store o) (Store_WithClient (Client o))) ;;;
  ret o.

(** The whole function handed to [s.once.Do]. *)
Definition Init_once (o : Options) : M Options :=
  o' <- Init_bootstrap o ;;
  Init_wire o'.

(** [Init] has no result value: the monad returns the receiver as the call
    leaves it.  [sync.Once] marks itself done when the function returns. *)
Definition Init (ov : list Option) (s : service) : M service :=
  (* process options *)
  let o := apply_options ov (opts s) in
  if once_done s then ret (mkService o true)
  else
    o' <- Init_once o ;;
    ret (mkService o' true).

(** A run of [Init] calls one after the other on the same service. *)
Fixpoint Init_calls (calls : list (list Option)) (s : service) : M service :=
  match calls with
  | [] => ret s
  | ov :: rest => s' <- Init ov s ;; Init_calls rest s'
  end.

Definition run_hook (h : hook) : M (option error) :=
  call (hook_fn h) (EvHook (hook_label h)).

(** [for _, fn := range hooks { if err := fn(); err != nil { return err } }] *)
Fixpoint hooks_fail_fast (hs : list hook) : M (option error) :=
  match hs with
  | [] => ret None
  | h :: hs' =>
      r <- run_hook h ;;
      match r with
      | Some e => ret (Some e)
      | None => hooks_fail_fast hs'
      end
  end.

(** [for _, fn := range hooks { if err := fn(); err != nil { gerr = err } }] *)
Fixpoint hooks_keep_last (hs : list hook) (gerr : option error)
  : M (option error) :=
  match hs with
  | [] => ret gerr
  | h :: hs' =>
      r <- run_hook h ;;
      match r with
      | Some e => hooks_keep_last hs' (Some e)
      | None => hooks_keep_last hs' gerr
      end
  end.

Definition Start (s : service) : M (option error) :=
  r <- hooks_fail_fast (BeforeStart (opts s)) ;;
  match r with
  | Some e => ret (Some e)
  | None =>
      r <- call (fun t => Server_Start env t (Server (opts s)))
                (EvServerStart (Server (opts s))) ;;
      match r with
      | Some e => ret (Some e)
      | None =>
          r <- hooks_fail_fast (AfterStart (opts s)) ;;
          match r with
          | Some e => ret (Some e)
          | None => ret None
          end
      end
  end.

Definition Stop (s : service) : M (option error) :=
  gerr <- hooks_keep_last (BeforeStop (opts s)) None ;;
  r <- call (fun t => Server_Stop env t (Server (opts s)))
            (EvServerStop (Server (opts s))) ;;
  match r with
  | Some e => ret (Some e)
  | None => hooks_keep_last (AfterStop (opts s)) gerr
  end.

(** Informational logging is left out of the trace.  A [Generate] that
    gives no error is taken to give an account: an answer with neither
    account nor error, on which reading [acc.ID] panics, is not modelled. *)
Definition registerAuthAccount (s : service) : M (option error) :=
  let serviceType := serviceType (Name s) in
  (* generate a new auth account for the service *)
  let name := Sprintf_v_dash_v (Name s) (srv_Id (service_Server s)) in
  let a := Auth (service_Options s) in
  let namespace := auth_Namespace a in
  r <- call (fun t => Auth_Generate env t a name [serviceType] namespace)
            (EvAuthGenerate a name [serviceType] namespace) ;;
  match r with
  | Err e => ret (Some e)
  | Ok acc =>
      (* generate a token *)
      r <- call (fun t => Auth_Token env t a (acc_ID acc) (acc_Secret acc))
                (EvAuthToken a (acc_ID acc) (acc_Secret acc)) ;;
      match r with
      | Err e => ret (Some e)
      | Ok tk =>
          call (fun t => Auth_Init env t a (ClientToken tk))
               (EvAuthInit a (ClientToken tk)) ;;;
          ret None
      end
  end.

(** [select] on the signal channel (armed only when [Signal] is set) and on
    [Context.Done()]: both cases have an empty body, so which one fires
    does not matter; when neither ever fires the call blocks. *)
Definition await_shutdown (o : Options) : M unit :=
  fun t =>
    if (Signal o && signal_pending env t) || Context_Done env t (Context o)
    then Ret tt (t ++ [EvShutdownRequested])
    else Hang t.

(** [Run] from the auth account on; the part a deferred [Profile.Stop]
    surrounds. *)
Definition Run_serve (s : service) : M (option error) :=
  (* generate an auth account *)
  r <- registerAuthAccount s ;;
  match r with
  | Some e => ret (Some e)
  | None =>
      r <- Start s ;;
      match r with
      | Some e => ret (Some e)
      | None =>
          await_shutdown (opts s) ;;;
          Stop s
      end
  end.

(** [Run].  The log lines are left out; [defer s.opts.Profile.Stop()]
    runs when [Run] returns. *)
Definition Run (s : service) : M (option error) :=
  (* register the debug handler *)
  call (fun t => Server_Handle env t (Server (opts s)))
       (EvServerHandle (Server (opts s))) ;;;
  (* start the profiler *)
  match Profile (opts s) with
  | Some p =>
      (* to view mutex contention *)
      emit (EvSetMutexProfileFraction 5) ;;;
      (* to view blocking profile *)
      emit (EvSetBlockProfileRate 1) ;;;
      r <- call (fun t => Profile_Start env t p) (EvProfileStart p) ;;
      match r with
      | Some e => ret (Some e)
      | None =>
          r <- Run_serve s ;;
          call (fun t => Profile_Stop env t p) (EvProfileStop p) ;;;
          ret r
      end
  | None => Run_serve s
  end.

End WithEnv.

Arguments Init_calls env calls s : simpl nomatch.

(* ================================================================== *)
(** ** Substrings *)

(** [sub] occurs in [s]: some text, then [sub], then some text. *)
Definition occurs_in (sub s : string) : Prop :=
  exists l r : string, s = (l ++ sub ++ r)%string.

(* ================================================================== *)
(** ** Reading a trace *)

(** How many events of a piece of trace are of kind [p]. *)
Definition count (p : event -> bool) (l : list event) : nat :=
  length (filter p l).

Definition is_plugin_Load (ev : event) : bool :=
  match ev with EvPluginLoad _ _ => true | _ => false end.
Definition is_plugin_Init (ev : event) : bool :=
  match ev with EvPluginInit _ _ => true | _ => false end.
Definition is_CmdInit (ev : event) : bool :=
  match ev with EvCmdInit _ _ => true | _ => false end.
Definition is_table_binding (ev : event) : bool :=
  match ev with EvStoreInit _ (Table _) _ => true | _ => false end.
Definition is_auth_wiring (ev : event) : bool :=
  match ev with EvAuthInit _ (Auth_WithClient _) _ => true | _ => false end.
Definition is_registry_wiring (ev : event) : bool :=
  match ev with EvRegistryInit _ _ _ => true | _ => false end.
Definition is_runtime_wiring (ev : event) : bool :=
  match ev with EvRuntimeInit _ _ _ => true | _ => false end.
Definition is_store_wiring (ev : event) : bool :=
  match ev with EvStoreInit _ (Store_WithClient _) _ => true | _ => false end.

Definition is_cross_wiring (ev : event) : bool :=
  is_auth_wiring ev || is_registry_wiring ev || is_runtime_wiring ev
  || is_store_wiring ev.

(** The events of the plugin loop: loads, initialisations, and the fatal
    log line that ends the process. *)
Definition is_plugin_step (ev : event) : bool :=
  match ev with
  | EvPluginLoad _ _ | EvPluginInit _ _ | EvFatal _ => true
  | _ => false
  end.

(** The events of the start and stop phases. *)
Definition is_lifecycle (ev : event) : bool :=
  match ev with
  | EvHook _ _ | EvServerStart _ _ | EvServerStop _ _
  | EvShutdownRequested => true
  | _ => false
  end.

Definition is_ServerStart (ev : event) : bool :=
  match ev with
  | EvServerStart _ _ => true
  | _ => false
  end.

(** The error of a failed account generation or token request. *)
Definition identity_failure (ev : event) : option error :=
  match ev with
  | EvAuthGenerate _ _ _ _ (Err e) => Some e
  | EvAuthToken _ _ _ (Err e) => Some e
  | _ => None
  end.

(** The error of a failed call of step 4 or 5. *)
Definition wiring_failure (ev : event) : option error :=
  match ev with
  | EvStoreInit _ _ (Some e) => Some e
  | EvAuthInit _ (Auth_WithClient _) (Some e) => Some e
  | EvRegistryInit _ _ (Some e) => Some e
  | EvRuntimeInit _ _ (Some e) => Some e
  | _ => None
  end.

(** The labels of the hooks called in a piece of trace, in order. *)
Definition hooks_run (evs : list event) : list string :=
  flat_map (fun ev => match ev with EvHook l _ => [l] | _ => [] end) evs.

(** The results of the hooks called in a piece of trace, in order. *)
Definition hook_results (evs : list event) : list (option error) :=
  flat_map (fun ev => match ev with EvHook _ r => [r] | _ => [] end) evs.

(* ================================================================== *)
(** ** Hook chains *)

(** The call of a hook that succeeds. *)
Definition ok_event (h : hook) : event := EvHook (hook_label h) None.

(** Every hook of [hs], run in order from trace [t], succeeds. *)
Fixpoint all_succeed (hs : list hook) (t : trace) : Prop :=
  match hs with
  | [] => True
  | h :: hs' => hook_fn h t = None /\ all_succeed hs' (t ++ [ok_event h])
  end.

(** The calls made when every hook of [hs] is run in order from trace [t],
    each with the result it gives at its turn. *)
Fixpoint hook_events (hs : list hook) (t : trace) : list event :=
  match hs with
  | [] => []
  | h :: hs' =>
      let ev := EvHook (hook_label h) (hook_fn h t) in
      ev :: hook_events hs' (t ++ [ev])
  end.

Definition or_else (a b : option error) : option error :=
  match a with
  | Some e => Some e
  | None => b
  end.

(** The last failure in a list of results, [None] when there is none. *)
Fixpoint last_failure (rs : list (option error)) : option error :=
  match rs with
  | [] => None
  | r :: rs' => or_else (last_failure rs') r
  end.

(* ================================================================== *)
(** ** What a computation adds to the trace *)

(** Whatever [m] adds to the trace satisfies [P]. *)
Definition all_events {A} (P : event -> Prop) (m : M A) : Prop :=
  forall t, exists new, trace_of (m t) = t ++ new /\ Forall P new.

(** [m] always returns to its caller. *)
Definition returns {A} (m : M A) : Prop :=
  forall t, exists a t', m t = Ret a t'.

(** What [registerAuthAccount] adds to the trace, by what it returns. *)
Inductive identity_trace : option error -> list event -> Prop :=
| identity_generate_failed a n roles ns e :
    identity_trace (Some e) [EvAuthGenerate a n roles ns (Err e)]
| identity_token_failed a n roles ns acc e :
    identity_trace (Some e)
      [EvAuthGenerate a n roles ns (Ok acc);
       EvAuthToken a (acc_ID acc) (acc_Secret acc) (Err e)]
| identity_installed a n roles ns acc tk r :
    identity_trace None
      [EvAuthGenerate a n roles ns (Ok acc);
       EvAuthToken a (acc_ID acc) (acc_Secret acc) (Ok tk);
       EvAuthInit a (ClientToken tk) r].

(** An event that is neither the accept call nor a failed identity
    request. *)
Definition neutral (ev : event) : Prop :=
  is_ServerStart ev = false /\ identity_failure ev = None.

(** The events of [Run_serve], by the error of the identity bootstrap. *)
Definition serve_shape (r : option error) (snew : list event) : Prop :=
  match r with
  | Some e => identity_trace (Some e) snew
  | None =>
      exists idn rest,
        identity_trace None idn /\ snew = idn ++ rest /\
        Forall (fun ev => is_lifecycle ev = true) rest
  end.

Definition nonempty (p : string) : bool :=
  negb (Nat.eqb (String.length p) 0).

(** The plugins [MICRO_PLUGIN] names: its non-empty pieces. *)
Definition configured_plugins (env : Env) : list string :=
  filter nonempty (Split (os_Getenv env "MICRO_PLUGIN") ",").

(** The application name after step 2. *)
Definition default_app_name (o : Options) : Options :=
  if Nat.eqb (String.length (App_Name (Cmd o))) 0
  then with_Cmd (mkCmd (srv_Name (Server o))) o
  else o.

(** The five calls of steps 4 and 5, with what they answered. *)
Definition wiring (o : Options) (r1 r2 r3 r4 r5 : option error)
  : list event :=
  [EvStoreInit (Store o) (Table (App_Name (Cmd o))) r1;
   EvAuthInit (Auth o) (Auth_WithClient (Client o)) r2;
   EvRegistryInit (Registry o) (Client o) r3;
   EvRuntimeInit (Runtime o) (Client o) r4;
   EvStoreInit (Store o) (Store_WithClient (Client o)) r5].

(** The five calls of steps 4 and 5 made in order from trace [t], each
    with what its collaborator answers at its turn. *)
Definition wiring_at (env : Env) (o : Options) (t : trace) : list event :=
  let r1 := Store_Init env t (Store o) (Table (App_Name (Cmd o))) in
  let t1 := t ++ [EvStoreInit (Store o) (Table (App_Name (Cmd o))) r1] in
  let r2 := Auth_Init env t1 (Auth o) (Auth_WithClient (Client o)) in
  let t2 := t1 ++ [EvAuthInit (Auth o) (Auth_WithClient (Client o)) r2] in
  let r3 := Registry_Init env t2 (Registry o) (Client o) in
  let t3 := t2 ++ [EvRegistryInit (Registry o) (Client o) r3] in
  let r4 := Runtime_Init env t3 (Runtime o) (Client o) in
  let t4 := t3 ++ [EvRuntimeInit (Runtime o) (Client o) r4] in
  let r5 := Store_Init env t4 (Store o) (Store_WithClient (Client o)) in
  wiring o r1 r2 r3 r4 r5.

(** How the function handed to [s.once.Do] ends, with what it added to
    the trace: a fatal plugin, a fatal flag parse, or the whole sequence. *)
Inductive once_end (env : Env) (o : Options) (t : trace)
  : outcome Options -> list event -> Prop :=
| once_plugin_fatal pl :
    Forall (fun ev => is_plugin_step ev = true) pl ->
    once_end env o t (Exit (t ++ pl)) pl
| once_cmd_fatal pl e :
    Forall (fun ev => is_plugin_step ev = true) pl ->
    once_end env o t
      (Exit (t ++ pl ++ [EvCmdInit (Cmd (default_app_name o)) (Some e);
                         EvFatal e]))
      (pl ++ [EvCmdInit (Cmd (default_app_name o)) (Some e); EvFatal e])
| once_whole pl c' b o' w :
    Forall (fun ev => is_plugin_step ev = true) pl ->
    Cmd_Init env (t ++ pl) (Cmd (default_app_name o))
             (bindings_of (default_app_name o)) = Ok (c', b) ->
    o' = with_bindings b (with_Cmd c' (default_app_name o)) ->
    w = wiring_at env o'
          (t ++ pl ++ [EvCmdInit (Cmd (default_app_name o)) None]) ->
    once_end env o t
      (Ret o' (t ++ pl ++ EvCmdInit (Cmd (default_app_name o)) None :: w))
      (pl ++ EvCmdInit (Cmd (default_app_name o)) None :: w).


(** What one run of the gated function that goes through adds to the
    trace, exactly: each configured plugin loaded and initialised once, one
    flag parse, one table binding, one wiring of each of auth, registry,
    runtime, store. *)
Definition once_exact (env : Env) (new : list event) : Prop :=
  count is_plugin_Load new = length (configured_plugins env) /\
  count is_plugin_Init new = length (configured_plugins env) /\
  count is_CmdInit new = 1 /\
  count is_table_binding new = 1 /\
  count is_auth_wiring new = 1 /\
  count is_registry_wiring new = 1 /\
  count is_runtime_wiring new = 1 /\
  count is_store_wiring new = 1.

(* ================================================================== *)
(** ** Two readings of the specification the code is checked against *)

(** The reading of the specification under which the table binding and the
    cross-wiring are outside the gate: every [Init] call that returns has
    bound the store's table and wired a collaborator during that call. *)
Definition wiring_on_every_Init : Prop :=
  forall env ov s t s' t',
    Init env ov s t = Ret s' t' ->
    exists new, t' = t ++ new /\
                existsb is_table_binding new = true /\
                existsb is_cross_wiring new = true.

(** The reading of the specification under which failures of steps 4 and 5
    reach the caller of [Init].  [Init] has no result value: all it hands
    back is the service it leaves.  The weakest form of the claim is that
    the error can be read off that service somehow. *)
Definition Init_reports_wiring_failures : Prop :=
  exists report : service -> option error,
    forall env ov s t s' new ev e,
      Init env ov s t = Ret s' (t ++ new) ->
      In ev new -> wiring_failure ev = Some e ->
      report s' = Some e.

(* ================================================================== *)
(** ** Concrete collaborators and services, for evaluating the code *)

(** Collaborators that always succeed; no plugin is configured and the
    context is already cancelled when [Run] reaches its [select]. *)
Definition quiet_env : Env :=
  mkEnv (fun _ => EmptyString)
        (fun _ p => Ok p) (fun _ _ => None)
        (fun _ c b => Ok (c, b))
        (fun _ _ _ => None) (fun _ _ _ => None)
        (fun _ _ _ => None) (fun _ _ _ => None)
        (fun _ _ name _ _ => Ok (mkAccount ("id-" ++ name)%string "secret"))
        (fun _ _ id _ => Ok ("token-" ++ id)%string)
        (fun _ _ => None) (fun _ _ => None) (fun _ _ => None)
        (fun _ _ => None) (fun _ _ => None)
        (fun _ => false) (fun _ _ => true).

(** An auth collaborator that is down: account generation fails. *)
Definition auth_down_env (e : error) : Env :=
  mkEnv (os_Getenv quiet_env) (plugin_Load quiet_env) (plugin_Init quiet_env)
        (Cmd_Init quiet_env) (Store_Init quiet_env) (Auth_Init quiet_env)
        (Registry_Init quiet_env) (Runtime_Init quiet_env)
        (fun _ _ _ _ _ => Err e)
        (Auth_Token quiet_env) (Server_Handle quiet_env)
        (Server_Start quiet_env) (Server_Stop quiet_env)
        (Profile_Start quiet_env) (Profile_Stop quiet_env)
        (signal_pending quiet_env) (Context_Done quiet_env).

(** A store that is down: every [Store.Init] fails. *)
Definition store_down_env (e : error) : Env :=
  mkEnv (os_Getenv quiet_env) (plugin_Load quiet_env) (plugin_Init quiet_env)
        (Cmd_Init quiet_env) (fun _ _ _ => Some e) (Auth_Init quiet_env)
        (Registry_Init quiet_env) (Runtime_Init quiet_env)
        (Auth_Generate quiet_env)
        (Auth_Token quiet_env) (Server_Handle quiet_env)
        (Server_Start quiet_env) (Server_Stop quiet_env)
        (Profile_Start quiet_env) (Profile_Stop quiet_env)
        (signal_pending quiet_env) (Context_Done quiet_env).

(** Two plugins configured, with an empty piece between them. *)
Definition plugins_env : Env :=
  mkEnv (fun k => if String.eqb k "MICRO_PLUGIN" then "a,,b" else EmptyString)
        (plugin_Load quiet_env) (plugin_Init quiet_env)
        (Cmd_Init quiet_env) (Store_Init quiet_env) (Auth_Init quiet_env)
        (Registry_Init quiet_env) (Runtime_Init quiet_env)
        (Auth_Generate quiet_env)
        (Auth_Token quiet_env) (Server_Handle quiet_env)
        (Server_Start quiet_env) (Server_Stop quiet_env)
        (Profile_Start quiet_env) (Profile_Stop quiet_env)
        (signal_pending quiet_env) (Context_Done quiet_env).

Definition demo_options (name id : string) : Options :=
  mkOptions (mkAuth "auth" "ns") "broker" (mkCmd EmptyString) (BaseClient "rpc")
            "config" (mkServer name id []) "store" "registry" "runtime"
            "transport" None [] [] [] [] "ctx" false.

Definition demo_service (name id : string) : service :=
  newService (fun ov => apply_options ov (demo_options name id)) [].

(** An override: rename the application. *)
Definition rename_app (n : string) : Option := with_Cmd (mkCmd n).

(** Hooks and options used to evaluate [Start] and [Stop]. *)
Definition hook_ok (label : string) : hook := mkHook label (fun _ => None).
Definition hook_failing (label : string) (e : error) : hook :=
  mkHook label (fun _ => Some e).

Definition with_hooks (bstart astart bstop astop : list hook)
                      (o : Options) : Options :=
  mkOptions (Auth o) (Broker o) (Cmd o) (Client o) (Config o) (Server o)
            (Store o) (Registry o) (Runtime o) (Transport o) (Profile o)
            bstart bstop astart astop (Context o) (Signal o).

(** The service "orders" with instance id "i1", as [newService] builds it. *)
Definition orders : service := demo_service "orders" "i1".

(** The same service once [Init] went through with collaborators that do
    not change the options: the application is named after the server and
    the gate is closed. *)
Definition orders_initialised : service :=
  mkService (with_Cmd (mkCmd "orders") (opts orders)) true.

(** What that first [Init] adds to the trace when every call succeeds. *)
Definition orders_init_trace : trace :=
  EvCmdInit (mkCmd "orders") None
  :: wiring (opts orders_initialised) None None None None None.

(** A second service of the same process, "billing" with instance id "i2",
    and what its own first [Init] gives. *)
Definition billing : service := demo_service "billing" "i2".

Definition billing_initialised : service :=
  mkService (with_Cmd (mkCmd "billing") (opts billing)) true.

Definition billing_init_trace : trace :=
  EvCmdInit (mkCmd "billing") None
  :: wiring (opts billing_initialised) None None None None None.

(** "orders" with BeforeStart hooks [A, B] where B fails, and an AfterStart
    hook C. *)
Definition orders_start_hooks : service :=
  mkService
    (with_hooks [hook_ok "A"; hook_failing "B" "B failed"] [hook_ok "C"]
                [] [] (demo_options "orders" "i1"))
    true.

(** "orders" with BeforeStop hooks [A, B] where A fails, and an AfterStop
    hook C. *)
Definition orders_stop_hooks : service :=
  mkService
    (with_hooks [] [] [hook_failing "A" "A failed"; hook_ok "B"]
                [hook_ok "C"] (demo_options "orders" "i1"))
    true.

(* ================================================================== *)
(** ** Outcomes of [Start] and of [Run], case by case *)

Definition is_ServerStop (ev : event) : bool :=
  match ev with
  | EvServerStop _ _ => true
  | _ => false
  end.

Definition is_hook (ev : event) : bool :=
  match ev with
  | EvHook _ _ => true
  | _ => false
  end.

(** A call about profiling: the profiler itself or the profiling rates of
    the Go runtime. *)
Definition is_profile_event (ev : event) : bool :=
  match ev with
  | EvProfileStart _ _ | EvProfileStop _ _
  | EvSetMutexProfileFraction _ | EvSetBlockProfileRate _ => true
  | _ => false
  end.

(** The four ways [Start] ends, with what it returns and what it adds to
    the trace: a BeforeStart hook fails, [Server.Start] fails, an AfterStart
    hook fails, or everything succeeds. *)
Inductive Start_outcome (env : Env) (s : service) (t : trace)
  : option error -> list event -> Prop :=
| Start_before_failed pre h post e :
    BeforeStart (opts s) = pre ++ h :: post ->
    all_succeed pre t ->
    hook_fn h (t ++ map ok_event pre) = Some e ->
    Start_outcome env s t (Some e)
      (map ok_event pre ++ [EvHook (hook_label h) (Some e)])
| Start_server_failed e :
    all_succeed (BeforeStart (opts s)) t ->
    Server_Start env (t ++ map ok_event (BeforeStart (opts s)))
                 (Server (opts s)) = Some e ->
    Start_outcome env s t (Some e)
      (map ok_event (BeforeStart (opts s))
       ++ [EvServerStart (Server (opts s)) (Some e)])
| Start_after_failed pre h post e :
    all_succeed (BeforeStart (opts s)) t ->
    Server_Start env (t ++ map ok_event (BeforeStart (opts s)))
                 (Server (opts s)) = None ->
    AfterStart (opts s) = pre ++ h :: post ->
    all_succeed pre (t ++ map ok_event (BeforeStart (opts s))
                       ++ [EvServerStart (Server (opts s)) None]) ->
    hook_fn h (t ++ map ok_event (BeforeStart (opts s))
                 ++ EvServerStart (Server (opts s)) None
                    :: map ok_event pre) = Some e ->
    Start_outcome env s t (Some e)
      (map ok_event (BeforeStart (opts s))
       ++ EvServerStart (Server (opts s)) None
          :: map ok_event pre ++ [EvHook (hook_label h) (Some e)])
| Start_up :
    all_succeed (BeforeStart (opts s)) t ->
    Server_Start env (t ++ map ok_event (BeforeStart (opts s)))
                 (Server (opts s)) = None ->
    all_succeed (AfterStart (opts s))
                (t ++ map ok_event (BeforeStart (opts s))
                   ++ [EvServerStart (Server (opts s)) None]) ->
    Start_outcome env s t None
      (map ok_event (BeforeStart (opts s))
       ++ EvServerStart (Server (opts s)) None
          :: map ok_event (AfterStart (opts s))).

(** Whether the [select] of [Run] is woken at trace [t]. *)
Definition wakes (env : Env) (o : Options) (t : trace) : bool :=
  (Signal o && signal_pending env t) || Context_Done env t (Context o).

(** A server that refuses to start. *)
Definition server_down_env (e : error) : Env :=
  mkEnv (os_Getenv quiet_env) (plugin_Load quiet_env) (plugin_Init quiet_env)
        (Cmd_Init quiet_env) (Store_Init quiet_env) (Auth_Init quiet_env)
        (Registry_Init quiet_env) (Runtime_Init quiet_env)
        (Auth_Generate quiet_env)
        (Auth_Token quiet_env) (Server_Handle quiet_env)
        (fun _ _ => Some e) (Server_Stop quiet_env)
        (Profile_Start quiet_env) (Profile_Stop quiet_env)
        (signal_pending quiet_env) (Context_Done quiet_env).

(** "orders" with a BeforeStart hook A and AfterStart hooks [C, D, E] where
    D fails. *)
Definition orders_after_hooks : service :=
  mkService
    (with_hooks [hook_ok "A"]
                [hook_ok "C"; hook_failing "D" "D failed"; hook_ok "E"]
                [] [] (demo_options "orders" "i1"))
    true.

(** "orders" with hooks that all succeed around start and stop. *)
Definition orders_all_hooks : service :=
  mkService
    (with_hooks [hook_ok "A"] [hook_ok "B"] [hook_ok "C"] [hook_ok "D"]
                (demo_options "orders" "i1"))
    true.

(** "orders" with a failing BeforeStop hook A and a failing AfterStop hook
    C. *)
Definition orders_stop_failures : service :=
  mkService
    (with_hooks [] [] [hook_failing "A" "A failed"]
                [hook_failing "C" "C failed"; hook_ok "D"]
                (demo_options "orders" "i1"))
    true.

(* ================================================================== *)
(** ** Reading the trace of [Init] *)

(** A plugin being loaded or initialised. *)
Definition is_plugin_call (ev : event) : bool :=
  is_plugin_Load ev || is_plugin_Init ev.

(** The error of a failed call that [Init] treats as fatal. *)
Definition fatal_cause (ev : event) : option error :=
  match ev with
  | EvPluginLoad _ (Err e) => Some e
  | EvPluginInit _ (Some e) => Some e
  | EvCmdInit _ (Some e) => Some e
  | _ => None
  end.

(** Plugins loaded and initialised without failure, one after the other:
    each name with the configuration its load gave. *)
Definition plugin_steps (pcs : list (string * plugin_config)) : list event :=
  flat_map (fun pc => [EvPluginLoad (fst pc) (Ok (snd pc));
                       EvPluginInit (snd pc) None]) pcs.

(** Two plugins configured, of which the second cannot be loaded. *)
Definition bad_plugin_env : Env :=
  mkEnv (os_Getenv plugins_env)
        (fun _ p => if String.eqb p "b" then Err "no such plugin" else Ok p)
        (plugin_Init quiet_env)
        (Cmd_Init quiet_env) (Store_Init quiet_env) (Auth_Init quiet_env)
        (Registry_Init quiet_env) (Runtime_Init quiet_env)
        (Auth_Generate quiet_env)
        (Auth_Token quiet_env) (Server_Handle quiet_env)
        (Server_Start quiet_env) (Server_Stop quiet_env)
        (Profile_Start quiet_env) (Profile_Stop quiet_env)
        (signal_pending quiet_env) (Context_Done quiet_env).

(** Flag parsing that replaces the server by one named "orders-v2" and
    leaves everything else as it is. *)
Definition renaming_flags_env : Env :=
  mkEnv (os_Getenv quiet_env) (plugin_Load quiet_env) (plugin_Init quiet_env)
        (fun _ c b =>
           Ok (c, mkBindings (b_Auth b) (b_Broker b) (b_Registry b)
                             (b_Runtime b) (b_Transport b) (b_Client b)
                             (b_Config b)
                             (mkServer "orders-v2" (srv_Id (b_Server b))
                                       (srv_HdlrWrappers (b_Server b)))
                             (b_Store b) (b_Profile b)))
        (Store_Init quiet_env) (Auth_Init quiet_env)
        (Registry_Init quiet_env) (Runtime_Init quiet_env)
        (Auth_Generate quiet_env)
        (Auth_Token quiet_env) (Server_Handle quiet_env)
        (Server_Start quiet_env) (Server_Stop quiet_env)
        (Profile_Start quiet_env) (Profile_Stop quiet_env)
        (signal_pending quiet_env) (Context_Done quiet_env).

(** "orders" with hooks around start and stop, before its first [Init]. *)
Definition orders_all_hooks_fresh : service :=
  mkService (opts orders_all_hooks) false.

(** "orders" as the flag parse of [renaming_flags_env] leaves it. *)
Definition orders_v2_initialised : service :=
  mkService
    (with_Server (mkServer "orders-v2" "i1"
                           [HandlerStats; TraceHandler; AuthHandler])
                 (opts orders_initialised))
    true.

(* ================================================================== *)
(** ** Outcomes of [Run], case by case *)

Definition is_shutdown_request (ev : event) : bool :=
  match ev with
  | EvShutdownRequested => true
  | _ => false
  end.

Definition is_ProfileStop (ev : event) : bool :=
  match ev with
  | EvProfileStop _ _ => true
  | _ => false
  end.

(** The four ways [Run_serve] ends from trace [t], with what it adds to
    the trace: the identity bootstrap fails; [Start] fails; [Start]
    succeeds and the [select] is never woken; [Start] succeeds, the
    [select] is woken and [Stop] runs. *)
Inductive serve_run (env : Env) (s : service) (t : trace)
  : outcome (option error) -> list event -> Prop :=
| serve_identity_failed e idn :
    identity_trace (Some e) idn ->
    serve_run env s t (Ret (Some e) (t ++ idn)) idn
| serve_start_failed e idn st :
    identity_trace None idn ->
    Start_outcome env s (t ++ idn) (Some e) st ->
    serve_run env s t (Ret (Some e) (t ++ idn ++ st)) (idn ++ st)
| serve_blocked idn st :
    identity_trace None idn ->
    Start_outcome env s (t ++ idn) None st ->
    wakes env (opts s) (t ++ idn ++ st) = false ->
    serve_run env s t (Hang (t ++ idn ++ st)) (idn ++ st)
| serve_stopped idn st sp r :
    identity_trace None idn ->
    Start_outcome env s (t ++ idn) None st ->
    wakes env (opts s) (t ++ idn ++ st) = true ->
    Stop env s (t ++ idn ++ st ++ [EvShutdownRequested])
    = Ret r ((t ++ idn ++ st ++ [EvShutdownRequested]) ++ sp) ->
    serve_run env s t
      (Ret r (t ++ idn ++ st ++ EvShutdownRequested :: sp))
      (idn ++ st ++ EvShutdownRequested :: sp).

(** The registration of the debug handler, the first thing [Run] does. *)
Definition handle_event (env : Env) (s : service) (t : trace) : event :=
  EvServerHandle (Server (opts s)) (Server_Handle env t (Server (opts s))).

(** What [Run] does before it starts a profiler: the debug handler, then
    the two profiling rates of the Go runtime. *)
Definition profiler_prelude (env : Env) (s : service) (t : trace)
  : list event :=
  [handle_event env s t; EvSetMutexProfileFraction 5;
   EvSetBlockProfileRate 1].

(** The ways [Run] ends from trace [t]: the profiler does not start; there
    is no profiler; the profiler started and [Run_serve] returned, after
    which the profiler is stopped; the profiler started and [Run_serve]
    blocks. *)
Inductive Run_shape (env : Env) (s : service) (t : trace)
  : outcome (option error) -> list event -> Prop :=
| Run_profile_failed p e :
    Profile (opts s) = Some p ->
    Run_shape env s t
      (Ret (Some e)
           (t ++ profiler_prelude env s t ++ [EvProfileStart p (Some e)]))
      (profiler_prelude env s t ++ [EvProfileStart p (Some e)])
| Run_plain out snew :
    Profile (opts s) = None ->
    serve_run env s (t ++ [handle_event env s t]) out snew ->
    Run_shape env s t out (handle_event env s t :: snew)
| Run_profiled_returned p r tr snew rs :
    Profile (opts s) = Some p ->
    serve_run env s
      (t ++ profiler_prelude env s t ++ [EvProfileStart p None])
      (Ret r tr) snew ->
    Run_shape env s t
      (Ret r (tr ++ [EvProfileStop p rs]))
      (profiler_prelude env s t
       ++ EvProfileStart p None :: snew ++ [EvProfileStop p rs])
| Run_profiled_blocked p tr snew :
    Profile (opts s) = Some p ->
    serve_run env s
      (t ++ profiler_prelude env s t ++ [EvProfileStart p None])
      (Hang tr) snew ->
    Run_shape env s t (Hang tr)
      (profiler_prelude env s t ++ EvProfileStart p None :: snew).

(** The calls [registerAuthAccount] makes. *)
Definition is_auth_event (ev : event) : bool :=
  match ev with
  | EvAuthGenerate _ _ _ _ _ | EvAuthToken _ _ _ _ | EvAuthInit _ _ _ => true
  | _ => false
  end.

(** A profiler to start and stop around the service. *)
Definition orders_profiled : service :=
  mkService
    (mkOptions (mkAuth "auth" "ns") "broker" (mkCmd "orders")
               (BaseClient "rpc") "config" (mkServer "orders" "i1" [])
               "store" "registry" "runtime" "transport" (Some "pprof")
               [hook_ok "A"] [hook_ok "C"] [hook_ok "B"] [hook_ok "D"]
               "ctx" false)
    true.

(** A context that is never cancelled, and no signal. *)
Definition never_cancelled_env : Env :=
  mkEnv (os_Getenv quiet_env) (plugin_Load quiet_env) (plugin_Init quiet_env)
        (Cmd_Init quiet_env) (Store_Init quiet_env) (Auth_Init quiet_env)
        (Registry_Init quiet_env) (Runtime_Init quiet_env)
        (Auth_Generate quiet_env)
        (Auth_Token quiet_env) (Server_Handle quiet_env)
        (Server_Start quiet_env) (Server_Stop quiet_env)
        (Profile_Start quiet_env) (Profile_Stop quiet_env)
        (fun _ => false) (fun _ _ => false).

(** [Server.Start] called with success. *)
Definition is_started (ev : event) : bool :=
  match ev with
  | EvServerStart _ None => true
  | _ => false
  end.

(** "orders" whose profiler cannot start. *)
Definition profiler_down_env (e : error) : Env :=
  mkEnv (os_Getenv quiet_env) (plugin_Load quiet_env) (plugin_Init quiet_env)
        (Cmd_Init quiet_env) (Store_Init quiet_env) (Auth_Init quiet_env)
        (Registry_Init quiet_env) (Runtime_Init quiet_env)
        (Auth_Generate quiet_env)
        (Auth_Token quiet_env) (Server_Handle quiet_env)
        (Server_Start quiet_env) (Server_Stop quiet_env)
        (fun _ _ => Some e) (Profile_Stop quiet_env)
        (signal_pending quiet_env) (Context_Done quiet_env).

(** Whether the byte [sep] occurs in [p]. *)
Fixpoint has_byte (sep : ascii) (p : string) : bool :=
  match p with
  | EmptyString => false
  | String c p' => Ascii.eqb c sep || has_byte sep p'
  end.

(** A plugin is loaded under a name that is not empty and holds no
    comma. *)
Definition plugin_name_ok (ev : event) : Prop :=
  match ev with
  | EvPluginLoad p _ => nonempty p = true /\ has_byte "," p = false
  | _ => True
  end.

(** The three calls of an identity bootstrap that succeeds, for the
    account [acc] and the token [tk] the auth collaborator gave. *)
Definition identity_calls (s : service) (acc : account) (tk : token)
                          (r3 : option error) : list event :=
  let a := Auth (opts s) in
  [EvAuthGenerate a (Sprintf_v_dash_v (Name s) (srv_Id (Server (opts s))))
     [serviceType (Name s)] (auth_Namespace a) (Ok acc);
   EvAuthToken a (acc_ID acc) (acc_Secret acc) (Ok tk);
   EvAuthInit a (ClientToken tk) r3].

(** A start and a stop of the service in which every registered hook and
    both server calls succeed, with the shutdown request in between. *)
Definition clean_cycle (s : service) : list event :=
  map ok_event (BeforeStart (opts s))
  ++ EvServerStart (Server (opts s)) None
     :: map ok_event (AfterStart (opts s))
  ++ EvShutdownRequested
     :: map ok_event (BeforeStop (opts s))
  ++ EvServerStop (Server (opts s)) None
     :: map ok_event (AfterStop (opts s)).

(* ================================================================== *)
(** * Proofs *)

Lemma HasPrefix_split (p s : string) :
  HasPrefix s p = true <-> exists r : string, s = (p ++ r)%string.
Proof.
  revert s; induction p as [|a p IH]; intros s; simpl.
  - split; [intros _; exists s; reflexivity | reflexivity].
  - destruct s as [|b s].
    + split; [discriminate | intros [r Hr]; discriminate].
    + rewrite andb_true_iff, Ascii.eqb_eq, IH. split.
      * intros [-> [r ->]]. exists r. reflexivity.
      * intros [r Hr]. inversion Hr. split; [reflexivity | exists r; reflexivity].
Qed.

Lemma Contains_occurs (s sub : string) :
  Contains s sub = true <-> occurs_in sub s.
Proof.
  unfold occurs_in.
  induction s as [|c s IH]; simpl.
  - destruct (HasPrefix EmptyString sub) eqn:Hp.
    + split; [intros _ | reflexivity].
      apply HasPrefix_split in Hp. destruct Hp as [r Hr].
      exists EmptyString, r. exact Hr.
    + split; [discriminate|].
      intros [l [r Hlr]]. destruct l; simpl in Hlr.
      * assert (HasPrefix EmptyString sub = true)
          by (apply HasPrefix_split; exists r; exact Hlr).
        congruence.
      * discriminate.
  - destruct (HasPrefix (String c s) sub) eqn:Hp.
    + split; [intros _ | reflexivity].
      apply HasPrefix_split in Hp. destruct Hp as [r Hr].
      exists EmptyString, r. exact Hr.
    + rewrite IH. split.
      * intros [l [r Hlr]]. exists (String c l), r. simpl. now rewrite Hlr.
      * intros [l [r Hlr]]. destruct l as [|c' l]; simpl in Hlr.
        -- assert (HasPrefix (String c s) sub = true)
             by (apply HasPrefix_split; exists r; exact Hlr).
           congruence.
        -- inversion Hlr. exists l, r. reflexivity.
Qed.

Lemma Contains_not_occurs (s sub : string) :
  Contains s sub = false <-> ~ occurs_in sub s.
Proof.
  rewrite <- Contains_occurs. destruct (Contains s sub); split; congruence.
Qed.

(* ================================================================== *)
(** ** Role classification *)

(** C6. The role is decided by looking for substrings of the service name,
    the cases being tried in the order the specification lists them: a name
    in which "api" occurs is classified api; otherwise a name in which
    "web" occurs is classified web; any other name is classified service.
    "foo-api", "foo-web", "foo" and "webfoo" give api, web, service and
    web: the match is on substrings, not on tokens. *)
Theorem C6_role_classification (name : string) :
  (occurs_in "api" name -> serviceType name = "api") /\
  (occurs_in "web" name -> ~ occurs_in "api" name ->
   serviceType name = "web") /\
  (~ occurs_in "api" name -> ~ occurs_in "web" name ->
   serviceType name = "service") /\
  serviceType "foo-api" = "api" /\
  serviceType "foo-web" = "web" /\
  serviceType "foo" = "service" /\
  serviceType "webfoo" = "web".
Proof.
  unfold serviceType at 1 2 3.
  repeat split; try reflexivity.
  - intros H. apply Contains_occurs in H. now rewrite H.
  - intros Hw Ha. apply Contains_occurs in Hw.
    apply Contains_not_occurs in Ha. now rewrite Ha, Hw.
  - intros Ha Hw. apply Contains_not_occurs in Ha.
    apply Contains_not_occurs in Hw. now rewrite Ha, Hw.
Qed.

(** "webfoo" holds "web" and not "api": it is classified web. *)
Lemma C6_role_classification_witness :
  occurs_in "web" "webfoo" /\ ~ occurs_in "api" "webfoo" /\
  serviceType "webfoo" = "web".
Proof.
  assert (Hw : occurs_in "web" "webfoo")
    by (exists EmptyString, "foo"%string; reflexivity).
  assert (Ha : ~ occurs_in "api" "webfoo")
    by (apply Contains_not_occurs; reflexivity).
  split; [exact Hw | split; [exact Ha |]].
  exact (proj1 (proj2 (C6_role_classification "webfoo")) Hw Ha).
Defined.

(** C10. The "api" test comes first: a name in which both "api" and "web"
    occur is classified api, never web. *)
Theorem C10_api_before_web (name : string) :
  occurs_in "api" name -> occurs_in "web" name ->
  serviceType name = "api" /\ serviceType name <> "web".
Proof.
  intros Ha _. apply Contains_occurs in Ha.
  unfold serviceType. rewrite Ha. split; [reflexivity | discriminate].
Qed.

(** "api-web-gateway" holds both: it is classified api. *)
Lemma C10_api_before_web_witness :
  occurs_in "api" "api-web-gateway" /\ occurs_in "web" "api-web-gateway" /\
  serviceType "api-web-gateway" = "api" /\
  serviceType "api-web-gateway" <> "web".
Proof.
  assert (Ha : occurs_in "api" "api-web-gateway")
    by (exists EmptyString, "-web-gateway"%string; reflexivity).
  assert (Hw : occurs_in "web" "api-web-gateway")
    by (exists "api-"%string, "-gateway"%string; reflexivity).
  split; [exact Ha | split; [exact Hw |]].
  exact (C10_api_before_web Ha Hw).
Defined.

(* ================================================================== *)
(** ** Middleware composition in [newService] *)

(** C5. [newService] wraps the outbound client bottom-up: the base client,
    then the From-Service header, then the trace span, then the auth
    credential, which is outermost and so is crossed first by an outbound
    call.  It registers the handler wrappers stats, trace, auth in that
    order after those the server already holds; the server runs its wrap
    list outermost first, so stats has the widest scope and auth is the
    gate right before the user's handler. *)
Theorem C5_middleware_order (newOptions : list Option -> Options)
                            (ov : list Option) :
  let o := newOptions ov in
  let s := newService newOptions ov in
  let name := srv_Name (Server o) in
  Client (opts s)
    = AuthClient name (srv_Id (Server o))
        (TraceCall name (FromService name (Client o))) /\
  outbound_path (Client (opts s))
    = L_auth :: L_trace :: L_from_service :: outbound_path (Client o) /\
  srv_HdlrWrappers (Server (opts s))
    = srv_HdlrWrappers (Server o) ++ [HandlerStats; TraceHandler; AuthHandler] /\
  (forall h : handler,
     effective_handler (Server (opts s)) h
       = effective_handler (Server o)
           (Wrapped HandlerStats (Wrapped TraceHandler (Wrapped AuthHandler h)))) /\
  (forall h : handler,
     srv_HdlrWrappers (Server o) = [] ->
     inbound_path (effective_handler (Server (opts s)) h)
       = L_stats :: L_trace :: L_auth :: inbound_path h).
Proof.
  intros o s name. subst s. unfold newService. fold o. simpl.
  repeat split; try reflexivity.
  - intros h. unfold effective_handler. simpl.
    rewrite fold_right_app. reflexivity.
  - intros h Hnil. unfold effective_handler. simpl.
    rewrite Hnil. reflexivity.
Qed.

(** A request to the service "orders" crosses stats, trace, auth and then
    reaches the handler. *)
Lemma C5_middleware_order_witness :
  inbound_path (effective_handler
                  (Server (opts (orders)))
                  (UserHandler "Orders.Get"))
  = [L_stats; L_trace; L_auth; L_user_handler "Orders.Get"].
Proof.
  exact (proj2 (proj2 (proj2 (proj2
           (C5_middleware_order
              (fun ov => apply_options ov (demo_options "orders" "i1")) []))))
           (UserHandler "Orders.Get") eq_refl).
Defined.

(* ================================================================== *)
(** ** Identity bootstrap *)

Ltac run_monad :=
  unfold bind, call, ret, Fatal; simpl; rewrite <- ?app_assoc; simpl.

(** C7. [registerAuthAccount] asks the auth collaborator to generate an
    account named "{name}-{instanceID}", with the role classification as
    only role and the namespace of the auth collaborator's options; when
    that succeeds it asks for a token with the id and the secret of the
    account it got; when that succeeds it installs the token as the auth
    collaborator's client token and returns no error.  A failure of either
    request is returned at once.  For the service "orders" with instance id
    "i1" the account is "orders-i1" and the role "service". *)
Theorem C7_registerAuthAccount (env : Env) (s : service) (t : trace) :
  let a := Auth (opts s) in
  let name := (Name s ++ "-" ++ srv_Id (Server (opts s)))%string in
  let role := serviceType (Name s) in
  let gen := EvAuthGenerate a name [role] (auth_Namespace a) in
  (exists r1 : result account,
     r1 = Auth_Generate env t a name [role] (auth_Namespace a) /\
     match r1 with
     | Err e => registerAuthAccount env s t = Ret (Some e) (t ++ [gen r1])
     | Ok acc =>
         let tok := EvAuthToken a (acc_ID acc) (acc_Secret acc) in
         exists r2 : result token,
           r2 = Auth_Token env (t ++ [gen r1]) a (acc_ID acc) (acc_Secret acc) /\
           match r2 with
           | Err e =>
               registerAuthAccount env s t
               = Ret (Some e) (t ++ [gen r1; tok r2])
           | Ok tk =>
               exists r3 : option error,
                 registerAuthAccount env s t
                 = Ret None (t ++ [gen r1; tok r2;
                                   EvAuthInit a (ClientToken tk) r3])
           end
     end) /\
  (Name s = "orders" -> srv_Id (Server (opts s)) = "i1" ->
   name = "orders-i1" /\ role = "service").
Proof.
  intros a name role gen. split.
  - eexists; split; [reflexivity|].
    unfold registerAuthAccount, service_Options, service_Server,
      Sprintf_v_dash_v.
    fold a. fold name. fold role.
    destruct (Auth_Generate env t a name [role] (auth_Namespace a))
      as [acc|e] eqn:Hgen.
    + eexists; split; [reflexivity|].
      destruct (Auth_Token env (t ++ [gen (Ok acc)]) a (acc_ID acc)
                           (acc_Secret acc)) as [tk|e] eqn:Htok.
      * eexists. run_monad. rewrite Hgen. simpl. subst gen.
        rewrite Htok. simpl. rewrite <- ?app_assoc. simpl. reflexivity.
      * run_monad. rewrite Hgen. simpl. subst gen.
        rewrite Htok. simpl. rewrite <- ?app_assoc. simpl. reflexivity.
    + run_monad. rewrite Hgen. reflexivity.
  - intros Hn Hi. subst name role. rewrite Hn, Hi. split; reflexivity.
Qed.

(** The service "orders" with instance id "i1" asks for the account
    "orders-i1" with the role "service". *)
Lemma C7_registerAuthAccount_witness :
  registerAuthAccount quiet_env (orders) []
  = Ret None
      [EvAuthGenerate (mkAuth "auth" "ns") "orders-i1" ["service"] "ns"
         (Ok (mkAccount "id-orders-i1" "secret"));
       EvAuthToken (mkAuth "auth" "ns") "id-orders-i1" "secret"
         (Ok "token-id-orders-i1");
       EvAuthInit (mkAuth "auth" "ns") (ClientToken "token-id-orders-i1") None]
  /\ (Sprintf_v_dash_v "orders" "i1" = "orders-i1" /\
      serviceType "orders" = "service").
Proof.
  split; [reflexivity|].
  exact (proj2 (C7_registerAuthAccount quiet_env (orders) [])
           eq_refl eq_refl).
Defined.

(* ================================================================== *)
(** ** Hook chains, [Start] and [Stop] *)

Lemma last_failure_app (a b : list (option error)) :
  last_failure (a ++ b) = or_else (last_failure b) (last_failure a).
Proof.
  induction a as [|r a IH]; simpl.
  - now destruct (last_failure b).
  - rewrite IH. now destruct (last_failure b).
Qed.

Lemma hook_events_labels (hs : list hook) (t : trace) :
  hooks_run (hook_events hs t) = map hook_label hs.
Proof.
  revert t; induction hs as [|h hs IH]; intros t; simpl; [reflexivity|].
  f_equal. apply IH.
Qed.

Lemma hook_events_all_succeed (hs : list hook) (t : trace) :
  all_succeed hs t -> hook_events hs t = map ok_event hs.
Proof.
  revert t; induction hs as [|h hs IH]; intros t; simpl; [reflexivity|].
  intros [Hh Hrest]. rewrite Hh. f_equal. apply IH. exact Hrest.
Qed.

Lemma last_failure_ok_events (hs : list hook) :
  last_failure (hook_results (map ok_event hs)) = None.
Proof.
  induction hs as [|h hs IH]; simpl; [reflexivity|]. now rewrite IH.
Qed.

Lemma hook_results_app (a b : list event) :
  hook_results (a ++ b) = hook_results a ++ hook_results b.
Proof. unfold hook_results. apply flat_map_app. Qed.

Lemma hooks_fail_fast_all_succeed (hs : list hook) (t : trace) :
  all_succeed hs t ->
  hooks_fail_fast hs t = Ret None (t ++ map ok_event hs).
Proof.
  revert t; induction hs as [|h hs IH]; intros t; simpl.
  - intros _. unfold ret. now rewrite app_nil_r.
  - intros [Hh Hrest]. unfold bind, run_hook, call. rewrite Hh.
    fold (ok_event h). rewrite (IH _ Hrest). now rewrite <- app_assoc.
Qed.

Lemma hooks_fail_fast_first_failure (pre post : list hook) (h : hook)
      (e : error) (t : trace) :
  all_succeed pre t ->
  hook_fn h (t ++ map ok_event pre) = Some e ->
  hooks_fail_fast (pre ++ h :: post) t
  = Ret (Some e) (t ++ map ok_event pre ++ [EvHook (hook_label h) (Some e)]).
Proof.
  revert t; induction pre as [|p pre IH]; intros t; simpl.
  - intros _ Hh. rewrite app_nil_r in Hh.
    unfold bind, run_hook, call, ret. now rewrite Hh.
  - intros [Hp Hrest] Hh. unfold bind, run_hook, call. rewrite Hp.
    fold (ok_event p). rewrite (IH (t ++ [ok_event p]) Hrest).
    + now rewrite <- app_assoc.
    + now rewrite <- app_assoc.
Qed.

Lemma hooks_keep_last_events (hs : list hook) (gerr : option error)
      (t : trace) :
  hooks_keep_last hs gerr t
  = Ret (or_else (last_failure (hook_results (hook_events hs t))) gerr)
        (t ++ hook_events hs t).
Proof.
  revert gerr t; induction hs as [|h hs IH]; intros gerr t; simpl.
  - unfold ret. now rewrite app_nil_r.
  - unfold bind, run_hook, call.
    destruct (hook_fn h t) as [e|] eqn:Hh; rewrite IH; rewrite <- app_assoc;
      simpl; f_equal;
      now destruct (last_failure
                      (hook_results
                         (hook_events hs (t ++ [EvHook (hook_label h) _])))).
Qed.

Lemma ok_events_no_ServerStart (hs : list hook) (tl : list event)
      (srv : server) (r : option error) :
  ~ In (EvServerStart srv r) tl ->
  ~ In (EvServerStart srv r) (map ok_event hs ++ tl).
Proof.
  intros Htl Hin. apply in_app_or in Hin. destruct Hin as [Hin|Hin].
  - apply in_map_iff in Hin. destruct Hin as [h [Hh _]]. discriminate.
  - exact (Htl Hin).
Qed.

Lemma hooks_run_ok_events (hs : list hook) (tl : list event) :
  hooks_run (map ok_event hs ++ tl) = map hook_label hs ++ hooks_run tl.
Proof.
  induction hs as [|h hs IH]; simpl; [reflexivity|]. now rewrite IH.
Qed.

(** C2. [Start] runs the BeforeStart hooks in registration order and the
    first one that fails aborts it: when the hooks [pre] succeed and the
    next hook [h] fails with [e], [Start] returns [e], and what it did is
    exactly the calls of [pre] followed by the call of [h]: the hooks after
    [h] are not run, [Server.Start] is not called, no AfterStart hook is
    run. *)
Theorem C2_Start_first_failure_aborts (env : Env) (s : service) (t : trace)
        (pre post : list hook) (h : hook) (e : error) :
  BeforeStart (opts s) = pre ++ h :: post ->
  all_succeed pre t ->
  hook_fn h (t ++ map ok_event pre) = Some e ->
  let new := map ok_event pre ++ [EvHook (hook_label h) (Some e)] in
  Start env s t = Ret (Some e) (t ++ new) /\
  hooks_run new = map hook_label pre ++ [hook_label h] /\
  length new = S (length pre) /\
  (forall srv r, ~ In (EvServerStart srv r) new).
Proof.
  intros HB Hpre Hh new. repeat split.
  - unfold Start, bind. rewrite HB.
    rewrite (hooks_fail_fast_first_failure pre post h t Hpre Hh).
    reflexivity.
  - subst new. now rewrite hooks_run_ok_events.
  - subst new. rewrite length_app, length_map. simpl. lia.
  - intros srv r. subst new. apply ok_events_no_ServerStart.
    simpl. intros [H|[]]. discriminate.
Qed.

(** BeforeStart hooks [A, B] where only B fails, with an AfterStart hook
    C: A and B are called, the server and C are not. *)
Lemma C2_Start_first_failure_aborts_witness :
  Start quiet_env orders_start_hooks []
  = Ret (Some "B failed") [EvHook "A" None; EvHook "B" (Some "B failed")] /\
  hooks_run [EvHook "A" None; EvHook "B" (Some "B failed")] = ["A"; "B"] /\
  length [EvHook "A" None; EvHook "B" (Some "B failed")] = 2 /\
  (forall srv r,
     ~ In (EvServerStart srv r)
          [EvHook "A" None; EvHook "B" (Some "B failed")]).
Proof.
  apply (@C2_Start_first_failure_aborts quiet_env orders_start_hooks []
           [hook_ok "A"] [] (hook_failing "B" "B failed") "B failed").
  - reflexivity.
  - simpl. split; [reflexivity | exact I].
  - reflexivity.
Defined.

(** C3. [Stop] runs every BeforeStop hook in order whatever they answer,
    then calls [Server.Stop].  When that fails [Stop] returns its error at
    once: no AfterStop hook is run and the failures of the BeforeStop hooks
    are dropped.  Otherwise every AfterStop hook is run in order and [Stop]
    returns the last failure among all the hooks it ran, or nil when there
    is none.  For BeforeStop hooks [A, B] where A fails and B succeeds, with
    the shutdown and the AfterStop hooks succeeding, A and B are both run
    and [Stop] returns the error of A. *)
Theorem C3_Stop_best_effort (env : Env) (s : service) (t : trace) :
  let o := opts s in
  let ev1 := hook_events (BeforeStop o) t in
  let r := Server_Stop env (t ++ ev1) (Server o) in
  let stop := EvServerStop (Server o) r in
  let ev2 := hook_events (AfterStop o) (t ++ ev1 ++ [stop]) in
  hooks_run ev1 = map hook_label (BeforeStop o) /\
  hooks_run ev2 = map hook_label (AfterStop o) /\
  match r with
  | Some e => Stop env s t = Ret (Some e) (t ++ ev1 ++ [stop])
  | None =>
      Stop env s t
      = Ret (last_failure (hook_results (ev1 ++ ev2)))
            (t ++ ev1 ++ [stop] ++ ev2)
  end /\
  (forall (A B : hook) (eA : error),
     BeforeStop o = [A; B] ->
     hook_fn A t = Some eA ->
     hook_fn B (t ++ [EvHook (hook_label A) (Some eA)]) = None ->
     r = None ->
     all_succeed (AfterStop o) (t ++ ev1 ++ [stop]) ->
     Stop env s t
     = Ret (Some eA)
           (t ++ [EvHook (hook_label A) (Some eA); EvHook (hook_label B) None;
                  stop] ++ map ok_event (AfterStop o))).
Proof.
  intros o ev1 r stop ev2.
  assert (Hstop :
    match r with
    | Some e => Stop env s t = Ret (Some e) (t ++ ev1 ++ [stop])
    | None =>
        Stop env s t
        = Ret (last_failure (hook_results (ev1 ++ ev2)))
              (t ++ ev1 ++ [stop] ++ ev2)
    end).
  { unfold Stop, bind, call. fold o.
    rewrite hooks_keep_last_events. fold ev1. fold r. fold stop.
    destruct r as [e|] eqn:Hr.
    - unfold ret. now rewrite <- app_assoc.
    - rewrite hooks_keep_last_events. rewrite <- !app_assoc. fold ev2.
      rewrite hook_results_app, last_failure_app.
      now destruct (last_failure (hook_results ev1)). }
  split; [apply hook_events_labels|].
  split; [apply hook_events_labels|].
  split; [exact Hstop|].
  intros A B eA HB HA HBok Hr Hafter.
  rewrite Hr in Hstop. rewrite Hstop.
  assert (Hev1 : ev1 = [EvHook (hook_label A) (Some eA);
                        EvHook (hook_label B) None]).
  { subst ev1. rewrite HB. simpl. rewrite HA. simpl. now rewrite HBok. }
  assert (Hev2 : ev2 = map ok_event (AfterStop o)).
  { subst ev2. now apply hook_events_all_succeed. }
  rewrite Hev2, Hev1. f_equal.
  rewrite hook_results_app, last_failure_app, last_failure_ok_events.
  reflexivity.
Qed.

(** BeforeStop hooks [A, B] where A fails, with an AfterStop hook C: A, B,
    the shutdown and C all run, and [Stop] returns the error of A. *)
Lemma C3_Stop_best_effort_witness :
  Stop quiet_env orders_stop_hooks []
  = Ret (Some "A failed")
        [EvHook "A" (Some "A failed"); EvHook "B" None;
         EvServerStop (mkServer "orders" "i1" []) None; EvHook "C" None].
Proof.
  apply (proj2 (proj2 (proj2
           (C3_Stop_best_effort quiet_env orders_stop_hooks [])))
           (hook_failing "A" "A failed") (hook_ok "B") "A failed").
  - reflexivity.
  - reflexivity.
  - reflexivity.
  - reflexivity.
  - simpl. split; [reflexivity | exact I].
Defined.

(* ================================================================== *)
(** ** What a computation adds to the trace *)

Lemma all_events_ret {A} (P : event -> Prop) (a : A) :
  all_events P (ret a).
Proof. intros t. exists []. simpl. now rewrite app_nil_r. Qed.

Lemma all_events_call {A} (P : event -> Prop) (ask : trace -> A)
      (ev : A -> event) :
  (forall r, P (ev r)) -> all_events P (call ask ev).
Proof. intros H t. exists [ev (ask t)]. simpl. auto. Qed.

Lemma all_events_Fatal {A} (P : event -> Prop) (e : error) :
  P (EvFatal e) -> all_events P (@Fatal A e).
Proof. intros H t. exists [EvFatal e]. simpl. auto. Qed.

Lemma all_events_bind {A B} (P : event -> Prop) (m : M A) (k : A -> M B) :
  all_events P m -> (forall a, all_events P (k a)) ->
  all_events P (bind m k).
Proof.
  intros Hm Hk t. destruct (Hm t) as [n1 [E1 F1]]. unfold bind.
  destruct (m t) as [a t1|t1|t1]; simpl in E1; subst t1.
  - destruct (Hk a (t ++ n1)) as [n2 [E2 F2]].
    exists (n1 ++ n2). rewrite E2, app_assoc. split; [reflexivity|].
    apply Forall_app. auto.
  - exists n1. auto.
  - exists n1. auto.
Qed.

Lemma returns_ret {A} (a : A) : returns (ret a).
Proof. intros t. now exists a, t. Qed.

Lemma returns_call {A} (ask : trace -> A) (ev : A -> event) :
  returns (call ask ev).
Proof. intros t. unfold call. eauto. Qed.

Lemma returns_bind {A B} (m : M A) (k : A -> M B) :
  returns m -> (forall a, returns (k a)) -> returns (bind m k).
Proof.
  intros Hm Hk t. destruct (Hm t) as [a [t1 E1]]. unfold bind. rewrite E1.
  apply Hk.
Qed.

Ltac step_events :=
  repeat first
    [ apply all_events_bind; [|intros ?]
    | apply returns_bind; [|intros ?]
    | apply all_events_ret | apply returns_ret | apply returns_call
    | apply all_events_call; intros ?; simpl; auto
    | match goal with
      | |- all_events _ (match ?x with _ => _ end) => destruct x
      | |- returns (match ?x with _ => _ end) => destruct x
      end ].

Lemma all_events_hooks_fail_fast (P : event -> Prop) (hs : list hook) :
  (forall l r, P (EvHook l r)) -> all_events P (hooks_fail_fast hs).
Proof.
  intros HP. induction hs as [|h hs IH]; simpl; [apply all_events_ret|].
  unfold run_hook. step_events. exact IH.
Qed.

Lemma all_events_hooks_keep_last (P : event -> Prop) (hs : list hook)
      (gerr : option error) :
  (forall l r, P (EvHook l r)) -> all_events P (hooks_keep_last hs gerr).
Proof.
  intros HP. revert gerr.
  induction hs as [|h hs IH]; intros gerr; simpl; [apply all_events_ret|].
  unfold run_hook. step_events; apply IH.
Qed.

Lemma returns_hooks_fail_fast (hs : list hook) : returns (hooks_fail_fast hs).
Proof.
  induction hs as [|h hs IH]; simpl; [apply returns_ret|].
  unfold run_hook. step_events. exact IH.
Qed.

Lemma returns_hooks_keep_last (hs : list hook) (gerr : option error) :
  returns (hooks_keep_last hs gerr).
Proof.
  revert gerr.
  induction hs as [|h hs IH]; intros gerr; simpl; [apply returns_ret|].
  unfold run_hook. step_events; apply IH.
Qed.

Lemma Start_lifecycle (env : Env) (s : service) :
  all_events (fun ev => is_lifecycle ev = true) (Start env s).
Proof.
  unfold Start. step_events; now apply all_events_hooks_fail_fast.
Qed.

Lemma Start_returns (env : Env) (s : service) : returns (Start env s).
Proof. unfold Start. step_events; apply returns_hooks_fail_fast. Qed.

Lemma Stop_lifecycle (env : Env) (s : service) :
  all_events (fun ev => is_lifecycle ev = true) (Stop env s).
Proof.
  unfold Stop. step_events; now apply all_events_hooks_keep_last.
Qed.

Lemma Stop_returns (env : Env) (s : service) : returns (Stop env s).
Proof. unfold Stop. step_events; apply returns_hooks_keep_last. Qed.

Lemma await_shutdown_lifecycle (env : Env) (o : Options) :
  all_events (fun ev => is_lifecycle ev = true) (await_shutdown env o).
Proof.
  intros t. unfold await_shutdown.
  destruct (Signal o && signal_pending env t || Context_Done env t (Context o)).
  - exists [EvShutdownRequested]. simpl. auto.
  - exists []. simpl. now rewrite app_nil_r.
Qed.

(* ================================================================== *)
(** ** [Run]: identity before accept *)

Lemma registerAuthAccount_trace (env : Env) (s : service) (t : trace) :
  exists r new,
    registerAuthAccount env s t = Ret r (t ++ new) /\ identity_trace r new.
Proof.
  unfold registerAuthAccount, bind, call, ret.
  destruct (Auth_Generate env t _ _ _ _) as [acc|e].
  - destruct (Auth_Token env _ _ _ _) as [tk|e].
    + eexists; eexists; split;
        [rewrite <- !app_assoc; reflexivity | simpl; constructor].
    + eexists; eexists; split;
        [rewrite <- !app_assoc; reflexivity | simpl; constructor].
  - eexists; eexists; split; [reflexivity | constructor].
Qed.

Lemma identity_trace_no_ServerStart (r : option error) (l : list event) :
  identity_trace r l -> Forall (fun ev => is_ServerStart ev = false) l.
Proof. intros H; inversion H; repeat constructor. Qed.

Lemma identity_trace_failure (r : option error) (l : list event)
      (ev : event) (e : error) :
  identity_trace r l -> In ev l -> identity_failure ev = Some e ->
  r = Some e.
Proof.
  intros H Hin Hf; inversion H; subst; simpl in Hin;
    repeat (destruct Hin as [Hin|Hin]; [subst ev; simpl in Hf; congruence|]);
    contradiction.
Qed.

Lemma lifecycle_no_failure (l : list event) (ev : event) (e : error) :
  Forall (fun ev => is_lifecycle ev = true) l -> In ev l ->
  identity_failure ev = Some e -> False.
Proof.
  intros HF Hin Hf. rewrite Forall_forall in HF. specialize (HF ev Hin).
  destruct ev; simpl in *; congruence.
Qed.

(** What [Run_serve] adds to the trace: either the identity bootstrap
    failed and that is all, or the bootstrap went through and only
    start and stop events follow. *)
Lemma Run_serve_trace (env : Env) (s : service) (t : trace) :
  exists new,
    trace_of (Run_serve env s t) = t ++ new /\
    ((exists e, identity_trace (Some e) new /\
                Run_serve env s t = Ret (Some e) (t ++ new)) \/
     (exists idn rest, identity_trace None idn /\ new = idn ++ rest /\
                       Forall (fun ev => is_lifecycle ev = true) rest)).
Proof.
  destruct (registerAuthAccount_trace env s t) as [r [idn [Hreg Hid]]].
  assert (Hs : Run_serve env s t
               = match r with
                 | Some e => Ret (Some e) (t ++ idn)
                 | None =>
                     (r <- Start env s ;;
                      match r with
                      | Some e => ret (Some e)
                      | None => await_shutdown env (opts s) ;;; Stop env s
                      end) (t ++ idn)
                 end).
  { unfold Run_serve, bind at 1. rewrite Hreg. now destruct r. }
  rewrite Hs. clear Hs.
  destruct r as [e|].
  - exists idn. split; [reflexivity|]. left. exists e. split; [exact Hid|].
    reflexivity.
  - assert (Hrest : all_events (fun ev => is_lifecycle ev = true)
              (r <- Start env s ;;
               match r with
               | Some e => ret (Some e)
               | None => await_shutdown env (opts s) ;;; Stop env s
               end)).
    { apply all_events_bind; [apply Start_lifecycle|].
      intros [e|]; [apply all_events_ret|].
      apply all_events_bind; [apply await_shutdown_lifecycle|].
      intros _. apply Stop_lifecycle. }
    destruct (Hrest (t ++ idn)) as [rest [E F]].
    exists (idn ++ rest). rewrite E, app_assoc. split; [reflexivity|].
    right. exists idn, rest. auto.
Qed.

Lemma framed_accept_after_identity (r : option error)
      (pre snew post : list event) :
  Forall neutral pre -> Forall neutral post ->
  snew = [] \/ serve_shape r snew ->
  forall ev, In ev (pre ++ snew ++ post) -> is_ServerStart ev = true ->
  exists before idn after,
    pre ++ snew ++ post = before ++ idn ++ after /\
    identity_trace None idn /\
    Forall (fun ev => is_ServerStart ev = false) before /\
    In ev after.
Proof.
  intros Hpre Hpost Hshape ev Hin Hss.
  rewrite Forall_forall in Hpre, Hpost.
  apply in_app_or in Hin. destruct Hin as [Hin|Hin].
  { destruct (Hpre ev Hin) as [H _]. congruence. }
  apply in_app_or in Hin. destruct Hin as [Hin|Hin].
  2:{ destruct (Hpost ev Hin) as [H _]. congruence. }
  destruct Hshape as [->|Hshape]; [destruct Hin|].
  destruct r as [e|]; simpl in Hshape.
  - apply identity_trace_no_ServerStart in Hshape.
    rewrite Forall_forall in Hshape. specialize (Hshape ev Hin). congruence.
  - destruct Hshape as [idn [rest [Hid [-> Hrest]]]].
    apply in_app_or in Hin. destruct Hin as [Hin|Hin].
    + apply identity_trace_no_ServerStart in Hid.
      rewrite Forall_forall in Hid. specialize (Hid ev Hin). congruence.
    + exists pre, idn, (rest ++ post). rewrite <- app_assoc.
      repeat split; auto.
      * apply Forall_forall. intros x Hx. apply (Hpre x Hx).
      * apply in_or_app. now left.
Qed.

Lemma framed_identity_failure (r : option error)
      (pre snew post : list event) :
  Forall neutral pre -> Forall neutral post ->
  snew = [] \/ serve_shape r snew ->
  forall ev e, In ev (pre ++ snew ++ post) -> identity_failure ev = Some e ->
  r = Some e /\
  Forall (fun ev => is_ServerStart ev = false) (pre ++ snew ++ post).
Proof.
  intros Hpre Hpost Hshape ev e Hin Hf.
  assert (Hpre' : Forall (fun ev => is_ServerStart ev = false) pre)
    by (eapply Forall_impl; [|exact Hpre]; intros x Hx; apply Hx).
  assert (Hpost' : Forall (fun ev => is_ServerStart ev = false) post)
    by (eapply Forall_impl; [|exact Hpost]; intros x Hx; apply Hx).
  rewrite Forall_forall in Hpre, Hpost.
  apply in_app_or in Hin. destruct Hin as [Hin|Hin].
  { destruct (Hpre ev Hin) as [_ H]. congruence. }
  apply in_app_or in Hin. destruct Hin as [Hin|Hin].
  2:{ destruct (Hpost ev Hin) as [_ H]. congruence. }
  destruct Hshape as [->|Hshape]; [destruct Hin|].
  destruct r as [e'|]; simpl in Hshape.
  - split; [eapply identity_trace_failure; eassumption|].
    apply Forall_app; split; [exact Hpre'|].
    apply Forall_app; split; [|exact Hpost'].
    exact (identity_trace_no_ServerStart Hshape).
  - destruct Hshape as [idn [rest [Hid [-> Hrest]]]].
    apply in_app_or in Hin. destruct Hin as [Hin|Hin].
    + assert (None = Some e) by (eapply identity_trace_failure; eassumption).
      discriminate.
    + exfalso. eapply lifecycle_no_failure; eassumption.
Qed.

(** [Run] with its monadic steps written out. *)
Lemma Run_unfold (env : Env) (s : service) (t : trace) :
  Run env s t
  = let h := EvServerHandle (Server (opts s))
               (Server_Handle env t (Server (opts s))) in
    match Profile (opts s) with
    | Some p =>
        let r := Profile_Start env
                   (t ++ [h; EvSetMutexProfileFraction 5;
                          EvSetBlockProfileRate 1]) p in
        let t2 := t ++ [h; EvSetMutexProfileFraction 5;
                        EvSetBlockProfileRate 1; EvProfileStart p r] in
        match r with
        | Some e => Ret (Some e) t2
        | None =>
            match Run_serve env s t2 with
            | Ret a t' =>
                Ret a (t' ++ [EvProfileStop p (Profile_Stop env t' p)])
            | Exit t' => Exit t'
            | Hang t' => Hang t'
            end
        end
    | None => Run_serve env s (t ++ [h])
    end.
Proof.
  unfold Run, bind, call, emit, ret. cbv zeta.
  destruct (Profile (opts s)) as [p|]; [|reflexivity].
  rewrite <- !app_assoc. simpl.
  destruct (Profile_Start env _ p); rewrite <- ?app_assoc; reflexivity.
Qed.

(** [Run] around [Run_serve]: what comes before and after in the trace,
    and what [Run] returns when the identity bootstrap failed. *)
Lemma Run_frame (env : Env) (s : service) (t : trace) :
  exists pre snew post r,
    trace_of (Run env s t) = t ++ pre ++ snew ++ post /\
    Forall neutral pre /\ Forall neutral post /\
    (snew = [] \/ serve_shape r snew) /\
    (forall e, r = Some e ->
               Run env s t = Ret (Some e) (t ++ pre ++ snew ++ post)).
Proof.
  rewrite Run_unfold. cbv zeta.
  set (h := EvServerHandle (Server (opts s))
              (Server_Handle env t (Server (opts s)))).
  assert (Hh : neutral h) by (split; reflexivity).
  destruct (Profile (opts s)) as [p|].
  - set (m := EvSetMutexProfileFraction 5).
    set (k := EvSetBlockProfileRate 1).
    assert (Hm : neutral m) by (split; reflexivity).
    assert (Hk : neutral k) by (split; reflexivity).
    set (ps := EvProfileStart p (Profile_Start env (t ++ [h; m; k]) p)).
    assert (Hps : neutral ps) by (split; reflexivity).
    destruct (Profile_Start env (t ++ [h; m; k]) p) as [e|] eqn:Hstart.
    + exists [h; m; k; ps], [], [], None. simpl.
      repeat split; auto; discriminate.
    + destruct (Run_serve_trace env s (t ++ [h; m; k; ps]))
        as [snew [E Hcases]].
      destruct Hcases as [[e [Hid Hret]]|Hok].
      * exists [h; m; k; ps], snew,
               [EvProfileStop p (Profile_Stop env ((t ++ [h; m; k; ps]) ++ snew) p)],
               (Some e).
        rewrite Hret. simpl. rewrite <- !app_assoc. simpl.
        repeat split; auto.
        intros e0 He0. congruence.
      * destruct (Run_serve env s (t ++ [h; m; k; ps])) as [r t'|t'|t'];
          simpl in E; subst t'.
        -- exists [h; m; k; ps], snew,
                 [EvProfileStop p
                    (Profile_Stop env ((t ++ [h; m; k; ps]) ++ snew) p)],
                 None.
           simpl. rewrite <- !app_assoc. simpl.
           repeat split; auto; discriminate.
        -- exists [h; m; k; ps], snew, [], None. simpl.
           rewrite <- !app_assoc, app_nil_r. simpl.
           repeat split; auto; discriminate.
        -- exists [h; m; k; ps], snew, [], None. simpl.
           rewrite <- !app_assoc, app_nil_r. simpl.
           repeat split; auto; discriminate.
  - destruct (Run_serve_trace env s (t ++ [h])) as [snew [E Hcases]].
    exists [h], snew, []. rewrite app_nil_r.
    destruct Hcases as [[e [Hid Hret]]|Hok].
    + exists (Some e). rewrite Hret. simpl. rewrite <- !app_assoc. simpl.
      repeat split; auto. intros e0 He0. congruence.
    + exists None. rewrite E. rewrite <- !app_assoc. simpl.
      repeat split; auto; discriminate.
Qed.

(** C4. [Run] runs the identity bootstrap strictly before the accept call:
    whenever [Server.Start] is called, the account generation, the token
    request and the installation of the token come before it in the trace.
    When the account generation or the token request fails, [Run] returns
    that error and [Server.Start] is never called. *)
Theorem C4_identity_before_accept (env : Env) (s : service) (t : trace) :
  exists new,
    trace_of (Run env s t) = t ++ new /\
    (forall ev, In ev new -> is_ServerStart ev = true ->
       exists before idn after,
         new = before ++ idn ++ after /\
         identity_trace None idn /\
         Forall (fun ev => is_ServerStart ev = false) before /\
         In ev after) /\
    (forall ev e, In ev new -> identity_failure ev = Some e ->
       Run env s t = Ret (Some e) (t ++ new) /\
       Forall (fun ev => is_ServerStart ev = false) new).
Proof.
  destruct (Run_frame env s t)
    as [pre [snew [post [r [E [Hpre [Hpost [Hshape Hret]]]]]]]].
  exists (pre ++ snew ++ post). split; [exact E|]. split.
  - intros ev Hin Hss.
    eapply framed_accept_after_identity; eassumption.
  - intros ev e Hin Hf.
    destruct (@framed_identity_failure r pre snew post Hpre Hpost Hshape
                ev e Hin Hf) as [Hr Hno].
    split; [apply Hret; exact Hr | exact Hno].
Qed.

(** With the auth collaborator down, [Run] returns its error after the
    debug handler and the failed generation: the server is never started. *)
Lemma C4_identity_before_accept_witness :
  Run (auth_down_env "auth is down") (orders) []
  = Ret (Some "auth is down")
        [EvServerHandle
           (mkServer "orders" "i1" [HandlerStats; TraceHandler; AuthHandler])
           None;
         EvAuthGenerate (mkAuth "auth" "ns") "orders-i1" ["service"] "ns"
           (Err "auth is down")].
Proof.
  destruct (C4_identity_before_accept (auth_down_env "auth is down")
              (orders) []) as [new [E [_ Hfail]]].
  vm_compute in E. subst new.
  exact (proj1 (Hfail _ "auth is down" (or_intror (or_introl eq_refl))
                  eq_refl)).
Defined.

(* ================================================================== *)
(** ** [Init]: the one-time gate *)

Lemma count_app (p : event -> bool) (a b : list event) :
  count p (a ++ b) = count p a + count p b.
Proof. unfold count. now rewrite filter_app, length_app. Qed.

Lemma count_none (p : event -> bool) (Q : event -> Prop) (l : list event) :
  Forall Q l -> (forall ev, Q ev -> p ev = false) -> count p l = 0.
Proof.
  intros HF HQ. unfold count.
  induction HF as [|ev l Hev _ IH]; simpl; [reflexivity|].
  now rewrite (HQ ev Hev).
Qed.

Lemma count_cons (p : event -> bool) (x : event) (l : list event) :
  count p (x :: l) = (if p x then 1 else 0) + count p l.
Proof. unfold count. simpl. now destruct (p x). Qed.

Lemma count_nil (p : event -> bool) : count p [] = 0.
Proof. reflexivity. Qed.

Ltac count_events :=
  repeat (rewrite count_app || rewrite count_cons || rewrite count_nil);
  simpl.

(** One turn of the plugin loop, with its monadic steps written out. *)
Lemma load_plugins_cons (env : Env) (p : string) (ps : list string)
      (t : trace) :
  load_plugins env (p :: ps) t
  = if Nat.eqb (String.length p) 0 then load_plugins env ps t
    else match plugin_Load env t p with
         | Err e => Exit (t ++ [EvPluginLoad p (Err e); EvFatal e])
         | Ok c =>
             match plugin_Init env (t ++ [EvPluginLoad p (Ok c)]) c with
             | Some e =>
                 Exit (t ++ [EvPluginLoad p (Ok c); EvPluginInit c (Some e);
                             EvFatal e])
             | None =>
                 load_plugins env ps
                   (t ++ [EvPluginLoad p (Ok c); EvPluginInit c None])
             end
         end.
Proof.
  cbn [load_plugins]. destruct (Nat.eqb (String.length p) 0); [reflexivity|].
  unfold bind, call, Fatal.
  destruct (plugin_Load env t p) as [c|e].
  - destruct (plugin_Init env _ c); rewrite <- !app_assoc; reflexivity.
  - rewrite <- !app_assoc; reflexivity.
Qed.

Lemma load_plugins_trace (env : Env) (ps : list string) (t : trace) :
  exists pl,
    (load_plugins env ps t = Ret tt (t ++ pl) \/
     load_plugins env ps t = Exit (t ++ pl)) /\
    Forall (fun ev => is_plugin_step ev = true) pl /\
    count is_plugin_Load pl <= length (filter nonempty ps) /\
    count is_plugin_Init pl <= length (filter nonempty ps).
Proof.
  revert t. induction ps as [|p ps IH]; intros t.
  - exists []. simpl. rewrite app_nil_r. unfold ret, count. simpl. auto.
  - assert (Hf : filter nonempty (p :: ps)
                 = if Nat.eqb (String.length p) 0 then filter nonempty ps
                   else p :: filter nonempty ps)
      by (simpl; unfold nonempty at 1;
          now destruct (Nat.eqb (String.length p) 0)).
    rewrite Hf, load_plugins_cons. clear Hf.
    destruct (Nat.eqb (String.length p) 0); [apply IH|].
    cbn [length].
    destruct (plugin_Load env t p) as [c|e].
    + destruct (plugin_Init env _ c) as [e|] eqn:Hinit.
      * eexists [_; _; _].
        split; [right; reflexivity|].
        split; [repeat constructor|]. unfold count; simpl. split; lia.
      * destruct (IH (t ++ [EvPluginLoad p (Ok c); EvPluginInit c None]))
          as [pl [Hout [HF [H1 H2]]]].
        exists (EvPluginLoad p (Ok c) :: EvPluginInit c None :: pl).
        rewrite <- !app_assoc in Hout. simpl in Hout.
        split; [exact Hout|].
        split; [repeat constructor; exact HF|].
        unfold count in *; simpl; split; lia.
    + eexists [_; _].
      split; [right; reflexivity|].
      split; [repeat constructor|]. unfold count; simpl. split; lia.
Qed.

Lemma wiring_at_shape (env : Env) (o : Options) (t : trace) :
  exists r1 r2 r3 r4 r5, wiring_at env o t = wiring o r1 r2 r3 r4 r5.
Proof. unfold wiring_at. repeat eexists. Qed.

(** Steps 4 and 5 always run to their end and hand back the options
    unchanged, whatever the collaborators answer. *)
Lemma Init_wire_total (env : Env) (o : Options) (t : trace) :
  Init_wire env o t = Ret o (t ++ wiring_at env o t).
Proof.
  unfold Init_wire, wiring_at, wiring, bind, call, ret.
  rewrite <- !app_assoc. reflexivity.
Qed.

Lemma Init_once_end (env : Env) (o : Options) (t : trace) :
  exists new,
    once_end env o t (Init_once env o t) new /\
    count is_plugin_Load new <= length (configured_plugins env) /\
    count is_plugin_Init new <= length (configured_plugins env).
Proof.
  destruct (load_plugins_trace env (Split (os_Getenv env "MICRO_PLUGIN") ",") t)
    as [pl [Hout [HF [H1 H2]]]].
  fold (configured_plugins env) in H1, H2.
  unfold Init_once, bind at 1, Init_bootstrap, bind at 1.
  fold (default_app_name o).
  destruct Hout as [Hout|Hout]; rewrite Hout.
  - unfold bind, call.
    destruct (Cmd_Init env (t ++ pl) _ _) as [[c' b]|e] eqn:Hcmd.
    + unfold ret. rewrite Init_wire_total.
      eexists. split.
      * rewrite <- !app_assoc. simpl.
        apply once_whole with (c' := c') (b := b);
          try reflexivity; assumption.
      * rewrite !count_app.
        destruct (wiring_at_shape env
                    (with_bindings b (with_Cmd c' (default_app_name o)))
                    (t ++ pl ++ [EvCmdInit (Cmd (default_app_name o)) None]))
          as [r1 [r2 [r3 [r4 [r5 Hw]]]]].
        rewrite Hw. unfold count at 2 4. simpl. lia.
    + unfold Fatal. eexists. split.
      * rewrite <- !app_assoc. simpl. now apply once_cmd_fatal.
      * rewrite !count_app. unfold count at 2 4. simpl. lia.
  - exists pl. split; [now apply once_plugin_fatal | auto].
Qed.




Lemma Init_done (env : Env) (ov : list Option) (s : service) (t : trace) :
  once_done s = true ->
  Init env ov s t = Ret (mkService (apply_options ov (opts s)) true) t.
Proof. intros H. unfold Init. now rewrite H. Qed.

Lemma Init_fresh (env : Env) (ov : list Option) (s : service) (t : trace) :
  once_done s = false ->
  Init env ov s t
  = match Init_once env (apply_options ov (opts s)) t with
    | Ret o' t' => Ret (mkService o' true) t'
    | Exit t' => Exit t'
    | Hang t' => Hang t'
    end.
Proof. intros H. unfold Init. now rewrite H. Qed.

Lemma Init_closes_gate (env : Env) (ov : list Option) (s s' : service)
      (t t' : trace) :
  Init env ov s t = Ret s' t' -> once_done s' = true.
Proof.
  destruct (once_done s) eqn:Hd.
  - rewrite (Init_done env ov s t Hd). now intros [= <- _].
  - rewrite (Init_fresh env ov s t Hd).
    destruct (Init_once env _ t); [|discriminate|discriminate].
    now intros [= <- _].
Qed.

Lemma apply_options_app (ov1 ov2 : list Option) (o : Options) :
  apply_options (ov1 ++ ov2) o = apply_options ov2 (apply_options ov1 o).
Proof. unfold apply_options. apply fold_left_app. Qed.

Lemma Init_calls_done (env : Env) (calls : list (list Option)) (s : service)
      (t : trace) :
  once_done s = true ->
  Init_calls env calls s t
  = Ret (mkService (apply_options (concat calls) (opts s)) true) t.
Proof.
  revert s. induction calls as [|ov rest IH]; intros s Hd.
  - destruct s as [o d]. simpl in *. now subst d.
  - cbn [Init_calls]. unfold bind. rewrite (Init_done env ov s t Hd).
    rewrite IH by reflexivity. simpl. now rewrite apply_options_app.
Qed.

Lemma Init_calls_cons (env : Env) (ov : list Option)
      (rest : list (list Option)) (s : service) (t : trace) :
  Init_calls env (ov :: rest) s t
  = match Init env ov s t with
    | Ret s1 t1 =>
        Ret (mkService (apply_options (concat rest) (opts s1)) true) t1
    | Exit t1 => Exit t1
    | Hang t1 => Hang t1
    end.
Proof.
  cbn [Init_calls]. unfold bind.
  destruct (Init env ov s t) as [s1 t1|t1|t1] eqn:HI; try reflexivity.
  apply Init_calls_done. exact (Init_closes_gate env ov s t HI).
Qed.



(** C8, as stated, does not hold of the code.
    The first [Init] call on the service "orders" binds the table once and
    wires the four collaborators once; a second call, on the service and
    trace the first one left, returns them as they are: it repeated
    nothing. *)
Lemma C8_wiring_not_repeated :
  Init quiet_env [] orders [] = Ret orders_initialised orders_init_trace /\
  Init quiet_env [] orders_initialised orders_init_trace
  = Ret orders_initialised orders_init_trace /\
  count is_table_binding orders_init_trace = 1 /\
  count is_cross_wiring orders_init_trace = 4 /\
  ~ wiring_on_every_Init.
Proof.
  repeat split; try reflexivity.
  intros H.
  destruct (H quiet_env [] orders_initialised orders_init_trace
              orders_initialised orders_init_trace eq_refl)
    as [new [Hnew [Htable _]]].
  rewrite <- (app_nil_r orders_init_trace) in Hnew at 1.
  apply app_inv_head in Hnew. subst new. discriminate.
Qed.

(** C8 (as the code has it).  The one-time gate covers the table binding
    and the cross-wiring as well as the plugin, name and flag steps: when
    the first [Init] call returns, what it added to the trace ends with the
    flag parse followed by the five calls of steps 4 and 5, and an [Init]
    call on the service it returned adds nothing to the trace and only
    applies its overrides. *)
Theorem C8_gate_covers_wiring (env : Env) (ov : list Option) (s s1 : service)
        (t t1 : trace) :
  Init env ov s t = Ret s1 t1 ->
  (once_done s = false ->
   exists pl c,
     Forall (fun ev => is_plugin_step ev = true) pl /\
     t1 = t ++ pl ++ EvCmdInit c None
                     :: wiring_at env (opts s1) (t ++ pl ++ [EvCmdInit c None])) /\
  (forall ov2,
     Init env ov2 s1 t1
     = Ret (mkService (apply_options ov2 (opts s1)) true) t1).
Proof.
  intros HI. split.
  - intros Hd. rewrite (Init_fresh env ov s t Hd) in HI.
    destruct (Init_once_end env (apply_options ov (opts s)) t)
      as [new [Hend _]].
    destruct Hend as [pl HF|pl e HF|pl c' b o' w HF Hcmd Ho' Hw];
      try discriminate.
    injection HI as <- <-. simpl. subst w.
    exists pl, (Cmd (default_app_name (apply_options ov (opts s)))).
    split; [exact HF | reflexivity].
  - intros ov2. apply Init_done. exact (Init_closes_gate env ov s t HI).
Qed.

(** The first [Init] on "orders" returns the initialised service; a second
    one with an override changes the options and leaves the trace alone. *)
Lemma C8_gate_covers_wiring_witness :
  Init quiet_env [] orders [] = Ret orders_initialised orders_init_trace /\
  Init quiet_env [rename_app "billing"] orders_initialised orders_init_trace
  = Ret (mkService (with_Cmd (mkCmd "billing") (opts orders)) true)
        orders_init_trace.
Proof.
  assert (HI : Init quiet_env [] orders []
               = Ret orders_initialised orders_init_trace) by reflexivity.
  split; [exact HI|].
  exact (proj2 (C8_gate_covers_wiring quiet_env [] orders [] HI)
           [rename_app "billing"]).
Defined.

(** C9, as stated, does not hold of the code.
    With the store down, [Init] on the service "orders" goes through all
    five calls of steps 4 and 5 and returns the very service it returns
    when the store is up: nothing tells its caller of the failure. *)
Lemma C9_wiring_failure_not_reported :
  Init (store_down_env "table unavailable") [] orders []
  = Ret orders_initialised
        (EvCmdInit (mkCmd "orders") None
         :: wiring (opts orders_initialised) (Some "table unavailable")
                   None None None (Some "table unavailable")) /\
  Init quiet_env [] orders [] = Ret orders_initialised orders_init_trace /\
  ~ Init_reports_wiring_failures.
Proof.
  split; [reflexivity|]. split; [reflexivity|].
  intros [report H].
  assert (H1 : report orders_initialised = Some "table unavailable").
  { apply (H (store_down_env "table unavailable") [] orders []
             orders_initialised
             (EvCmdInit (mkCmd "orders") None
              :: wiring (opts orders_initialised) (Some "table unavailable")
                        None None None (Some "table unavailable"))
             (EvStoreInit "store" (Table "orders") (Some "table unavailable"))).
    - reflexivity.
    - simpl. auto.
    - reflexivity. }
  assert (H2 : report orders_initialised = Some "disk full").
  { apply (H (store_down_env "disk full") [] orders [] orders_initialised
             (EvCmdInit (mkCmd "orders") None
              :: wiring (opts orders_initialised) (Some "disk full")
                        None None None (Some "disk full"))
             (EvStoreInit "store" (Table "orders") (Some "disk full"))).
    - reflexivity.
    - simpl. auto.
    - reflexivity. }
  rewrite H1 in H2. discriminate.
Qed.

(** C9 (as the code has it).  What the calls of steps 4 and 5 answer is
    dropped: once plugins, name and flags went through, [Init] makes the
    five calls in order whatever each of them answers, and returns to its
    caller the service with the options the flag parse left; it hands back
    no error. *)
Theorem C9_wiring_failures_dropped (env : Env) (ov : list Option)
        (s : service) (t : trace) (o1 : Options) (t1 : trace) :
  once_done s = false ->
  Init_bootstrap env (apply_options ov (opts s)) t = Ret o1 t1 ->
  Init env ov s t = Ret (mkService o1 true) (t1 ++ wiring_at env o1 t1) /\
  exists r1 r2 r3 r4 r5,
    wiring_at env o1 t1 = wiring o1 r1 r2 r3 r4 r5 /\
    r1 = Store_Init env t1 (Store o1) (Table (App_Name (Cmd o1))).
Proof.
  intros Hd Hb. split.
  - rewrite (Init_fresh env ov s t Hd).
    unfold Init_once, bind. rewrite Hb, Init_wire_total. reflexivity.
  - unfold wiring_at. repeat eexists.
Qed.

(** With the store down and the flags parsed, [Init] on "orders" makes the
    five calls and returns the initialised service. *)
Lemma C9_wiring_failures_dropped_witness :
  Init (store_down_env "table unavailable") [] orders []
  = Ret orders_initialised
        ([EvCmdInit (mkCmd "orders") None]
         ++ wiring (opts orders_initialised) (Some "table unavailable")
                   None None None (Some "table unavailable")).
Proof.
  exact (proj1 (@C9_wiring_failures_dropped
                  (store_down_env "table unavailable") [] orders []
                  (opts orders_initialised)
                  [EvCmdInit (mkCmd "orders") None] eq_refl eq_refl)).
Defined.

(* ================================================================== *)
(** ** [Start], every way it ends *)

Lemma hooks_fail_fast_cases (hs : list hook) (t : trace) :
  (all_succeed hs t /\
   hooks_fail_fast hs t = Ret None (t ++ map ok_event hs)) \/
  (exists pre h post e,
     hs = pre ++ h :: post /\ all_succeed pre t /\
     hook_fn h (t ++ map ok_event pre) = Some e /\
     hooks_fail_fast hs t
     = Ret (Some e)
           (t ++ map ok_event pre ++ [EvHook (hook_label h) (Some e)])).
Proof.
  revert t. induction hs as [|h hs IH]; intros t.
  - left. split; [exact I|]. simpl. unfold ret. now rewrite app_nil_r.
  - destruct (hook_fn h t) as [e|] eqn:Hh.
    + right. exists [], h, hs, e. simpl. rewrite app_nil_r.
      repeat split; auto.
      unfold bind, run_hook, call, ret. now rewrite Hh.
    + destruct (IH (t ++ [ok_event h]))
        as [[Hall Hrun]|[pre [h' [post [e [Hhs [Hall [Hf Hrun]]]]]]]].
      * left. assert (Hall' : all_succeed (h :: hs) t) by (split; assumption).
        split; [exact Hall'|]. now apply hooks_fail_fast_all_succeed.
      * right. exists (h :: pre), h', post, e.
        assert (Hall' : all_succeed (h :: pre) t) by (split; assumption).
        rewrite <- app_assoc in Hf. simpl in Hf.
        repeat split; auto.
        -- simpl. now rewrite Hhs.
        -- rewrite Hhs.
           apply (hooks_fail_fast_first_failure (h :: pre) post h' t Hall').
           exact Hf.
Qed.

Lemma Start_cases (env : Env) (s : service) (t : trace) :
  exists r new,
    Start env s t = Ret r (t ++ new) /\ Start_outcome env s t r new.
Proof.
  unfold Start, bind at 1.
  destruct (hooks_fail_fast_cases (BeforeStart (opts s)) t)
    as [[Hb Hrun]|[pre [h [post [e [Hhs [Hall [Hf Hrun]]]]]]]]; rewrite Hrun.
  2:{ exists (Some e). eexists. split; [reflexivity|].
      now apply Start_before_failed with (post := post). }
  unfold bind at 1, call at 1.
  destruct (Server_Start env (t ++ map ok_event (BeforeStart (opts s)))
                         (Server (opts s))) as [e|] eqn:Hsrv.
  { exists (Some e). eexists. split.
    - unfold ret. rewrite <- app_assoc. reflexivity.
    - now apply Start_server_failed. }
  unfold bind.
  destruct (hooks_fail_fast_cases (AfterStart (opts s))
              ((t ++ map ok_event (BeforeStart (opts s)))
                 ++ [EvServerStart (Server (opts s)) None]))
    as [[Ha Hrun2]|[pre [h [post [e [Hhs [Hall [Hf Hrun2]]]]]]]];
    rewrite Hrun2; rewrite <- !app_assoc in *; simpl in *.
  - exists None. eexists. split; [reflexivity|]. now apply Start_up.
  - exists (Some e). eexists. split; [reflexivity|].
    now apply Start_after_failed with (post := post).
Qed.

(** X1. [Start] returns nil exactly when every BeforeStart hook, then
    [Server.Start], then every AfterStart hook succeeded; what it did is
    then all of them, in that order. *)
Theorem Start_nil_iff (env : Env) (s : service) (t t' : trace) :
  Start env s t = Ret None t' <->
  (all_succeed (BeforeStart (opts s)) t /\
   Server_Start env (t ++ map ok_event (BeforeStart (opts s)))
                (Server (opts s)) = None /\
   all_succeed (AfterStart (opts s))
               (t ++ map ok_event (BeforeStart (opts s))
                  ++ [EvServerStart (Server (opts s)) None]) /\
   t' = t ++ map ok_event (BeforeStart (opts s))
          ++ EvServerStart (Server (opts s)) None
             :: map ok_event (AfterStart (opts s))).
Proof.
  split.
  - intros H. destruct (Start_cases env s t) as [r [new [Hrun Ho]]].
    rewrite Hrun in H. injection H as -> <-.
    inversion Ho; subst. auto.
  - intros [Hb [Hsrv [Ha ->]]].
    unfold Start, bind at 1.
    rewrite (hooks_fail_fast_all_succeed _ t Hb).
    unfold bind at 1, call at 1. rewrite Hsrv. unfold bind.
    rewrite <- app_assoc.
    rewrite (hooks_fail_fast_all_succeed _ _ Ha).
    rewrite <- !app_assoc. reflexivity.
Qed.

(** With hooks that succeed and a server that starts, [Start] on "orders"
    returns nil after A, the server and B. *)
Lemma Start_nil_iff_witness :
  Start quiet_env orders_all_hooks []
  = Ret None [EvHook "A" None; EvServerStart (mkServer "orders" "i1" []) None;
              EvHook "B" None].
Proof.
  apply (proj2 (Start_nil_iff quiet_env orders_all_hooks []
                  [EvHook "A" None;
                   EvServerStart (mkServer "orders" "i1" []) None;
                   EvHook "B" None])).
  repeat split.
Defined.

(** X2. When the BeforeStart hooks succeed and [Server.Start] fails, [Start]
    returns the server's error and runs no AfterStart hook: the hooks it
    ran are the BeforeStart hooks. *)
Theorem Start_server_failure (env : Env) (s : service) (t : trace)
        (e : error) :
  all_succeed (BeforeStart (opts s)) t ->
  Server_Start env (t ++ map ok_event (BeforeStart (opts s)))
               (Server (opts s)) = Some e ->
  Start env s t
  = Ret (Some e)
        (t ++ map ok_event (BeforeStart (opts s))
           ++ [EvServerStart (Server (opts s)) (Some e)]) /\
  hooks_run (map ok_event (BeforeStart (opts s))
             ++ [EvServerStart (Server (opts s)) (Some e)])
  = map hook_label (BeforeStart (opts s)).
Proof.
  intros Hb Hsrv. split.
  - unfold Start, bind at 1.
    rewrite (hooks_fail_fast_all_succeed _ t Hb).
    unfold bind, call, ret. rewrite Hsrv. now rewrite <- app_assoc.
  - rewrite hooks_run_ok_events. simpl. now rewrite app_nil_r.
Qed.

(** With a server that refuses to start, [Start] on "orders" runs A, fails
    on the server and leaves B alone. *)
Lemma Start_server_failure_witness :
  Start (server_down_env "port in use") orders_all_hooks []
  = Ret (Some "port in use")
        [EvHook "A" None;
         EvServerStart (mkServer "orders" "i1" []) (Some "port in use")] /\
  hooks_run [EvHook "A" None;
             EvServerStart (mkServer "orders" "i1" []) (Some "port in use")]
  = ["A"].
Proof.
  apply (@Start_server_failure (server_down_env "port in use")
           orders_all_hooks [] "port in use").
  - simpl. split; [reflexivity | exact I].
  - reflexivity.
Defined.

(** X3. The first AfterStart hook that fails aborts [Start] with its error and
    the AfterStart hooks after it are not run; this happens once the server
    has started, and [Start] does not stop it. *)
Theorem Start_after_failure (env : Env) (s : service) (t : trace)
        (pre post : list hook) (h : hook) (e : error) :
  all_succeed (BeforeStart (opts s)) t ->
  Server_Start env (t ++ map ok_event (BeforeStart (opts s)))
               (Server (opts s)) = None ->
  AfterStart (opts s) = pre ++ h :: post ->
  all_succeed pre (t ++ map ok_event (BeforeStart (opts s))
                     ++ [EvServerStart (Server (opts s)) None]) ->
  hook_fn h (t ++ map ok_event (BeforeStart (opts s))
               ++ EvServerStart (Server (opts s)) None
                  :: map ok_event pre) = Some e ->
  let new := map ok_event (BeforeStart (opts s))
             ++ EvServerStart (Server (opts s)) None
                :: map ok_event pre ++ [EvHook (hook_label h) (Some e)] in
  Start env s t = Ret (Some e) (t ++ new) /\
  hooks_run new
  = map hook_label (BeforeStart (opts s)) ++ map hook_label pre
    ++ [hook_label h] /\
  In (EvServerStart (Server (opts s)) None) new /\
  Forall (fun ev => is_ServerStop ev = false) new.
Proof.
  intros Hb Hsrv Ha Hpre Hh new. repeat split.
  - unfold Start, bind at 1.
    rewrite (hooks_fail_fast_all_succeed _ t Hb).
    unfold bind at 1, call at 1. rewrite Hsrv. unfold bind.
    rewrite Ha, <- app_assoc.
    rewrite (@hooks_fail_fast_first_failure pre post h e _ Hpre).
    + subst new. rewrite <- !app_assoc. reflexivity.
    + rewrite <- !app_assoc. exact Hh.
  - subst new. rewrite hooks_run_ok_events. simpl.
    now rewrite hooks_run_ok_events.
  - subst new. apply in_or_app. right. now left.
  - subst new. apply Forall_app. split.
    + apply Forall_forall. intros ev Hin. apply in_map_iff in Hin.
      destruct Hin as [x [<- _]]. reflexivity.
    + constructor; [reflexivity|]. apply Forall_app. split.
      * apply Forall_forall. intros ev Hin. apply in_map_iff in Hin.
        destruct Hin as [x [<- _]]. reflexivity.
      * repeat constructor.
Qed.

(** AfterStart hooks [C, D, E] where D fails: A, the server, C and D run,
    E does not, and the server stays started. *)
Lemma Start_after_failure_witness :
  Start quiet_env orders_after_hooks []
  = Ret (Some "D failed")
        [EvHook "A" None; EvServerStart (mkServer "orders" "i1" []) None;
         EvHook "C" None; EvHook "D" (Some "D failed")].
Proof.
  apply (@Start_after_failure quiet_env orders_after_hooks []
           [hook_ok "C"] [hook_ok "E"] (hook_failing "D" "D failed")
           "D failed").
  - simpl. split; [reflexivity | exact I].
  - reflexivity.
  - reflexivity.
  - simpl. split; [reflexivity | exact I].
  - reflexivity.
Defined.

(* ================================================================== *)
(** ** [Stop]: what it returns *)

(** [Stop] with its monadic steps written out. *)
Lemma Stop_unfold (env : Env) (s : service) (t : trace) :
  Stop env s t
  = let ev1 := hook_events (BeforeStop (opts s)) t in
    match Server_Stop env (t ++ ev1) (Server (opts s)) with
    | Some e =>
        Ret (Some e) (t ++ ev1 ++ [EvServerStop (Server (opts s)) (Some e)])
    | None =>
        let ev2 := hook_events (AfterStop (opts s))
                     (t ++ ev1 ++ [EvServerStop (Server (opts s)) None]) in
        Ret (or_else (last_failure (hook_results ev2))
                     (last_failure (hook_results ev1)))
            (t ++ ev1 ++ EvServerStop (Server (opts s)) None :: ev2)
    end.
Proof.
  cbv zeta. unfold Stop, bind at 1. rewrite hooks_keep_last_events.
  unfold bind, call.
  destruct (Server_Stop env (t ++ hook_events (BeforeStop (opts s)) t)
                        (Server (opts s))) as [e|].
  - unfold ret. now rewrite <- app_assoc.
  - rewrite hooks_keep_last_events. rewrite <- !app_assoc. simpl.
    now destruct (last_failure (hook_results
                                  (hook_events (BeforeStop (opts s)) t))).
Qed.

Lemma last_failure_none_iff (hs : list hook) (t : trace) :
  last_failure (hook_results (hook_events hs t)) = None <-> all_succeed hs t.
Proof.
  revert t. induction hs as [|h hs IH]; intros t; simpl.
  - split; auto.
  - destruct (hook_fn h t) as [e|] eqn:Hh; simpl.
    + split; [|intros [H _]; discriminate].
      destruct (last_failure _); discriminate.
    + fold (ok_event h). rewrite <- (IH (t ++ [ok_event h])).
      destruct (last_failure _); simpl; split; auto; try discriminate;
        intros [_ H]; discriminate.
Qed.

(** X4. [Stop] returns nil exactly when every BeforeStop hook, then
    [Server.Stop], then every AfterStop hook succeeded. *)
Theorem Stop_nil_iff (env : Env) (s : service) (t t' : trace) :
  Stop env s t = Ret None t' <->
  (all_succeed (BeforeStop (opts s)) t /\
   Server_Stop env (t ++ map ok_event (BeforeStop (opts s)))
               (Server (opts s)) = None /\
   all_succeed (AfterStop (opts s))
               (t ++ map ok_event (BeforeStop (opts s))
                  ++ [EvServerStop (Server (opts s)) None]) /\
   t' = t ++ map ok_event (BeforeStop (opts s))
          ++ EvServerStop (Server (opts s)) None
             :: map ok_event (AfterStop (opts s))).
Proof.
  rewrite Stop_unfold. cbv zeta. split.
  - destruct (Server_Stop env _ (Server (opts s))) as [e|] eqn:Hsrv;
      [discriminate|].
    intros H. injection H as Hr <-.
    destruct (last_failure (hook_results (hook_events (AfterStop (opts s)) _)))
      eqn:H2; [discriminate|]. simpl in Hr.
    apply last_failure_none_iff in Hr.
    rewrite (hook_events_all_succeed _ _ Hr) in *.
    apply last_failure_none_iff in H2.
    rewrite (hook_events_all_succeed _ _ H2).
    auto.
  - intros [Hb [Hsrv [Ha ->]]].
    rewrite (hook_events_all_succeed _ _ Hb), Hsrv.
    rewrite (hook_events_all_succeed _ _ Ha).
    now rewrite !last_failure_ok_events.
Qed.

(** With hooks that succeed and a server that stops, [Stop] on "orders"
    returns nil after C, the server and D. *)
Lemma Stop_nil_iff_witness :
  Stop quiet_env orders_all_hooks []
  = Ret None [EvHook "C" None; EvServerStop (mkServer "orders" "i1" []) None;
              EvHook "D" None].
Proof.
  apply (proj2 (Stop_nil_iff quiet_env orders_all_hooks []
                  [EvHook "C" None;
                   EvServerStop (mkServer "orders" "i1" []) None;
                   EvHook "D" None])).
  repeat split.
Defined.

(** X5. A failing AfterStop hook hides every failure of the BeforeStop hooks:
    when the shutdown succeeds and [e] is the last failure among the
    AfterStop hooks, [Stop] returns [e] whatever the BeforeStop hooks
    answered. *)
Theorem Stop_after_failure_masks (env : Env) (s : service) (t : trace)
        (e : error) :
  let ev1 := hook_events (BeforeStop (opts s)) t in
  let stop := EvServerStop (Server (opts s)) None in
  let ev2 := hook_events (AfterStop (opts s)) (t ++ ev1 ++ [stop]) in
  Server_Stop env (t ++ ev1) (Server (opts s)) = None ->
  last_failure (hook_results ev2) = Some e ->
  Stop env s t = Ret (Some e) (t ++ ev1 ++ stop :: ev2).
Proof.
  intros ev1 stop ev2 Hsrv He. rewrite Stop_unfold. cbv zeta.
  fold ev1. rewrite Hsrv. fold stop. fold ev2. now rewrite He.
Qed.

(** BeforeStop hook A fails, AfterStop hook C fails: [Stop] returns the
    error of C and that of A is lost. *)
Lemma Stop_after_failure_masks_witness :
  Stop quiet_env orders_stop_failures []
  = Ret (Some "C failed")
        [EvHook "A" (Some "A failed");
         EvServerStop (mkServer "orders" "i1" []) None;
         EvHook "C" (Some "C failed"); EvHook "D" None].
Proof.
  apply (@Stop_after_failure_masks quiet_env orders_stop_failures []
           "C failed").
  - reflexivity.
  - reflexivity.
Defined.

(* ================================================================== *)
(** ** [Init]: plugins, fatal errors, what it leaves alone *)

Lemma plugin_steps_calls (pcs : list (string * plugin_config)) :
  Forall (fun ev => is_plugin_call ev = true) (plugin_steps pcs).
Proof.
  induction pcs as [|pc pcs IH]; simpl; repeat constructor. exact IH.
Qed.

(** When the plugin loop returns, it loaded and initialised exactly the
    non-empty pieces, in order. *)
Lemma load_plugins_Ret (env : Env) (ps : list string) (t t' : trace)
      (u : unit) :
  load_plugins env ps t = Ret u t' ->
  exists cfgs,
    length cfgs = length (filter nonempty ps) /\
    t' = t ++ plugin_steps (combine (filter nonempty ps) cfgs).
Proof.
  revert t. induction ps as [|p ps IH]; intros t.
  - simpl. unfold ret. intros [= _ <-]. exists []. simpl.
    now rewrite app_nil_r.
  - assert (Hf : filter nonempty (p :: ps)
                 = if Nat.eqb (String.length p) 0 then filter nonempty ps
                   else p :: filter nonempty ps)
      by (simpl; unfold nonempty at 1;
          now destruct (Nat.eqb (String.length p) 0)).
    rewrite Hf, load_plugins_cons. clear Hf.
    destruct (Nat.eqb (String.length p) 0); [apply IH|].
    destruct (plugin_Load env t p) as [c|e]; [|discriminate].
    destruct (plugin_Init env _ c) as [e|]; [discriminate|].
    intros H. destruct (IH _ H) as [cfgs [Hlen ->]].
    exists (c :: cfgs). simpl. rewrite Hlen, <- app_assoc. auto.
Qed.

(** When the plugin loop ends the process, it does so right after a load
    or an initialisation that failed, logging that error; before it only
    plugins were loaded and initialised. *)
Lemma load_plugins_Exit (env : Env) (ps : list string) (t t' : trace) :
  load_plugins env ps t = Exit t' ->
  exists pre ev e,
    t' = t ++ pre ++ [ev; EvFatal e] /\ fatal_cause ev = Some e /\
    Forall (fun ev => is_plugin_call ev = true) pre.
Proof.
  revert t. induction ps as [|p ps IH]; intros t.
  - discriminate.
  - rewrite load_plugins_cons.
    destruct (Nat.eqb (String.length p) 0); [apply IH|].
    destruct (plugin_Load env t p) as [c|e].
    + destruct (plugin_Init env _ c) as [e|].
      * intros [= <-]. exists [EvPluginLoad p (Ok c)], (EvPluginInit c (Some e)), e.
        repeat split. repeat constructor.
      * intros H. destruct (IH _ H) as [pre [ev [e [-> [Hc HF]]]]].
        exists (EvPluginLoad p (Ok c) :: EvPluginInit c None :: pre), ev, e.
        rewrite <- app_assoc. simpl. repeat split; auto.
    + intros [= <-]. exists [], (EvPluginLoad p (Err e)), e.
      repeat split. constructor.
Qed.

Lemma load_plugins_no_Hang (env : Env) (ps : list string) (t t' : trace) :
  load_plugins env ps t <> Hang t'.
Proof.
  destruct (load_plugins_trace env ps t) as [pl [[H|H] _]]; rewrite H;
    discriminate.
Qed.

(** [Init_bootstrap] with its monadic steps written out. *)
Lemma Init_bootstrap_unfold (env : Env) (o : Options) (t : trace) :
  Init_bootstrap env o t
  = match load_plugins env (Split (os_Getenv env "MICRO_PLUGIN") ",") t with
    | Ret _ t1 =>
        let o1 := default_app_name o in
        match Cmd_Init env t1 (Cmd o1) (bindings_of o1) with
        | Ok (c', b) =>
            Ret (with_bindings b (with_Cmd c' o1))
                (t1 ++ [EvCmdInit (Cmd o1) None])
        | Err e => Exit (t1 ++ [EvCmdInit (Cmd o1) (Some e); EvFatal e])
        end
    | Exit t1 => Exit t1
    | Hang t1 => Hang t1
    end.
Proof.
  unfold Init_bootstrap, bind at 1. fold (default_app_name o).
  destruct (load_plugins env _ t) as [u t1|t1|t1]; try reflexivity.
  unfold bind, call, ret, Fatal. cbv zeta.
  destruct (Cmd_Init env t1 _ _) as [[c' b]|e]; simpl;
    rewrite <- ?app_assoc; reflexivity.
Qed.

(** [Init] on a service whose gate is open, in terms of its two parts. *)
Lemma Init_fresh_unfold (env : Env) (ov : list Option) (s : service)
      (t : trace) :
  once_done s = false ->
  Init env ov s t
  = match Init_bootstrap env (apply_options ov (opts s)) t with
    | Ret o1 t1 => Ret (mkService o1 true) (t1 ++ wiring_at env o1 t1)
    | Exit t1 => Exit t1
    | Hang t1 => Hang t1
    end.
Proof.
  intros Hd. rewrite (Init_fresh env ov s t Hd). unfold Init_once, bind.
  destruct (Init_bootstrap env _ t); try reflexivity.
  now rewrite Init_wire_total.
Qed.

(** The whole of what a first [Init] that returns has done. *)
Lemma Init_returns_shape (env : Env) (ov : list Option) (s s1 : service)
      (t t1 : trace) :
  once_done s = false ->
  Init env ov s t = Ret s1 t1 ->
  exists cfgs c' b,
    let o := default_app_name (apply_options ov (opts s)) in
    let steps := plugin_steps (combine (configured_plugins env) cfgs) in
    length cfgs = length (configured_plugins env) /\
    Cmd_Init env (t ++ steps) (Cmd o) (bindings_of o) = Ok (c', b) /\
    s1 = mkService (with_bindings b (with_Cmd c' o)) true /\
    t1 = t ++ steps ++ EvCmdInit (Cmd o) None
                       :: wiring_at env (opts s1)
                            (t ++ steps ++ [EvCmdInit (Cmd o) None]).
Proof.
  intros Hd. rewrite (Init_fresh_unfold env ov s t Hd), Init_bootstrap_unfold.
  destruct (load_plugins env _ t) as [u t0|t0|t0] eqn:Hload; try discriminate.
  apply load_plugins_Ret in Hload. destruct Hload as [cfgs [Hlen ->]].
  cbv zeta.
  destruct (Cmd_Init env _ _ _) as [[c' b]|e] eqn:Hcmd; [|discriminate].
  intros [= <- <-]. exists cfgs, c', b. cbv zeta.
  fold (configured_plugins env) in *.
  repeat split; auto. simpl. now rewrite <- !app_assoc.
Qed.

(** How often each one-time step occurs in plugins loaded and initialised
    without failure. *)
Lemma plugin_steps_counts (pcs : list (string * plugin_config)) :
  count is_plugin_Load (plugin_steps pcs) = length pcs /\
  count is_plugin_Init (plugin_steps pcs) = length pcs /\
  count is_CmdInit (plugin_steps pcs) = 0 /\
  count is_table_binding (plugin_steps pcs) = 0 /\
  count is_auth_wiring (plugin_steps pcs) = 0 /\
  count is_registry_wiring (plugin_steps pcs) = 0 /\
  count is_runtime_wiring (plugin_steps pcs) = 0 /\
  count is_store_wiring (plugin_steps pcs) = 0.
Proof.
  induction pcs as [|pc pcs IH]; [repeat split|].
  change (plugin_steps (pc :: pcs))
    with (EvPluginLoad (fst pc) (Ok (snd pc))
          :: EvPluginInit (snd pc) None :: plugin_steps pcs).
  count_events. intuition lia.
Qed.

(** The whole sequence holds each one-time step exactly once. *)
Lemma once_sequence_exact (env : Env) (o : Options) (c : cmd)
      (cfgs : list plugin_config) (r1 r2 r3 r4 r5 : option error) :
  length cfgs = length (configured_plugins env) ->
  once_exact env (plugin_steps (combine (configured_plugins env) cfgs)
                  ++ EvCmdInit c None :: wiring o r1 r2 r3 r4 r5).
Proof.
  intros Hlen.
  pose proof (plugin_steps_counts (combine (configured_plugins env) cfgs))
    as [K1 [K2 [K3 [K4 [K5 [K6 [K7 K8]]]]]]].
  rewrite length_combine, Hlen, Nat.min_id in K1, K2.
  unfold once_exact, wiring. count_events.
  rewrite K1, K2, K3, K4, K5, K6, K7, K8. repeat split; lia.
Qed.

(** A first [Init] that returns has run each one-time step exactly
    once. *)
Lemma Init_first_exact (env : Env) (ov : list Option) (s s1 : service)
      (t t1 : trace) :
  once_done s = false ->
  Init env ov s t = Ret s1 t1 ->
  exists new, t1 = t ++ new /\ once_exact env new.
Proof.
  intros Hd HI.
  destruct (Init_returns_shape env ov s t Hd HI)
    as [cfgs [c' [b [Hlen [_ [_ Ht1]]]]]].
  cbv zeta in Hlen, Ht1.
  destruct (wiring_at_shape env (opts s1)
              (t ++ plugin_steps (combine (configured_plugins env) cfgs)
                 ++ [EvCmdInit
                       (Cmd (default_app_name
                               (apply_options ov (opts s)))) None]))
    as [r1 [r2 [r3 [r4 [r5 Hw]]]]].
  rewrite Hw in Ht1. eexists. split; [exact Ht1|].
  now apply once_sequence_exact.
Qed.



(** X19. The gate belongs to the service, not to the process: a second
    fresh service initialised after the first runs the one-time sequence
    again.  When [Init] returns on a fresh service and then on another
    fresh service, the trace holds the sequence twice, each time with
    every one-time step exactly once. *)
Theorem Init_gate_per_service (env : Env) (ov ov' : list Option)
        (s s' s1 s2 : service) (t t1 t2 : trace) :
  once_done s = false ->
  once_done s' = false ->
  Init env ov s t = Ret s1 t1 ->
  Init env ov' s' t1 = Ret s2 t2 ->
  exists new new',
    t1 = t ++ new /\ t2 = t ++ new ++ new' /\
    once_exact env new /\ once_exact env new'.
Proof.
  intros Hd Hd' HI HI'.
  destruct (Init_first_exact env ov s t Hd HI) as [new [-> Hex]].
  destruct (Init_first_exact env ov' s' _ Hd' HI') as [new' [-> Hex']].
  exists new, new'. rewrite <- app_assoc. auto.
Qed.

(** The services "orders" and "billing" initialised one after the other:
    the flags are parsed twice and the table is bound twice, once for
    each. *)
Lemma Init_gate_per_service_witness :
  Init quiet_env [] orders [] = Ret orders_initialised orders_init_trace /\
  Init quiet_env [] billing orders_init_trace
  = Ret billing_initialised (orders_init_trace ++ billing_init_trace) /\
  count is_CmdInit (orders_init_trace ++ billing_init_trace) = 2 /\
  once_exact quiet_env orders_init_trace /\
  once_exact quiet_env billing_init_trace.
Proof.
  assert (H1 : Init quiet_env [] orders []
               = Ret orders_initialised orders_init_trace) by reflexivity.
  assert (H2 : Init quiet_env [] billing orders_init_trace
               = Ret billing_initialised
                     (orders_init_trace ++ billing_init_trace))
    by reflexivity.
  split; [exact H1|]. split; [exact H2|]. split; [reflexivity|].
  destruct (Init_gate_per_service quiet_env [] [] orders billing []
              eq_refl eq_refl H1 H2) as [new [new' [E1 [E2 [K1 K2]]]]].
  change ([] ++ new) with new in E1. subst new.
  change ([] ++ orders_init_trace ++ new')
    with (orders_init_trace ++ new') in E2.
  apply app_inv_head in E2. subst new'.
  split; [exact K1 | exact K2].
Defined.

Lemma wiring_no_plugin_call (o : Options) (r1 r2 r3 r4 r5 : option error) :
  Forall (fun ev => is_plugin_call ev = false) (wiring o r1 r2 r3 r4 r5).
Proof. unfold wiring. repeat constructor. Qed.

(** X6. [Init] ends the process only on a fresh service and only right after a
    plugin load, a plugin initialisation or the flag parse failed, logging
    that very error; all it did before is load and initialise plugins: no
    table is bound and no collaborator wired. *)
Theorem Init_exits_only_on_fatal (env : Env) (ov : list Option) (s : service)
        (t t' : trace) :
  Init env ov s t = Exit t' ->
  once_done s = false /\
  exists pre ev e,
    t' = t ++ pre ++ [ev; EvFatal e] /\ fatal_cause ev = Some e /\
    Forall (fun ev => is_plugin_call ev = true) pre.
Proof.
  intros H. destruct (once_done s) eqn:Hd.
  { rewrite (Init_done env ov s t Hd) in H. discriminate. }
  split; [reflexivity|].
  rewrite (Init_fresh_unfold env ov s t Hd), Init_bootstrap_unfold in H.
  destruct (load_plugins env _ t) as [u t0|t0|t0] eqn:Hload.
  - apply load_plugins_Ret in Hload. destruct Hload as [cfgs [_ ->]].
    cbv zeta in H.
    destruct (Cmd_Init env _ _ _) as [[c' b]|e]; [discriminate|].
    injection H as <-.
    exists (plugin_steps (combine (configured_plugins env) cfgs)),
           (EvCmdInit (Cmd (default_app_name (apply_options ov (opts s))))
                      (Some e)), e.
    rewrite <- app_assoc. repeat split. apply plugin_steps_calls.
  - injection H as <-. now apply load_plugins_Exit in Hload.
  - discriminate.
Qed.

(** Plugins "a" and "b" configured, "b" cannot be loaded: the process ends
    after "a" was loaded and initialised and the load of "b" failed. *)
Lemma Init_exits_only_on_fatal_witness :
  Init bad_plugin_env [] orders []
  = Exit [EvPluginLoad "a" (Ok "a"); EvPluginInit "a" None;
          EvPluginLoad "b" (Err "no such plugin"); EvFatal "no such plugin"]
  /\ once_done orders = false.
Proof.
  assert (H : Init bad_plugin_env [] orders []
              = Exit [EvPluginLoad "a" (Ok "a"); EvPluginInit "a" None;
                      EvPluginLoad "b" (Err "no such plugin");
                      EvFatal "no such plugin"]) by reflexivity.
  split; [exact H|].
  exact (proj1 (Init_exits_only_on_fatal bad_plugin_env [] orders [] H)).
Defined.

(** X7. When the first [Init] returns, the plugins it loaded are exactly the
    non-empty pieces of MICRO_PLUGIN, in order, each initialised right
    after its load; the flag parse follows, and no plugin is touched after
    it. *)
Theorem Init_loads_configured_plugins (env : Env) (ov : list Option)
        (s s1 : service) (t t1 : trace) :
  once_done s = false ->
  Init env ov s t = Ret s1 t1 ->
  exists cfgs c rest,
    length cfgs = length (configured_plugins env) /\
    t1 = t ++ plugin_steps (combine (configured_plugins env) cfgs)
           ++ EvCmdInit c None :: rest /\
    Forall (fun ev => is_plugin_call ev = false) rest.
Proof.
  intros Hd HI.
  destruct (Init_returns_shape env ov s t Hd HI)
    as [cfgs [c' [b [Hlen [_ [_ Ht1]]]]]].
  exists cfgs. eexists. eexists. split; [exact Hlen|].
  split; [exact Ht1|].
  destruct (wiring_at_shape env (opts s1)
              (t ++ plugin_steps (combine (configured_plugins env) cfgs)
                 ++ [EvCmdInit
                       (Cmd (default_app_name (apply_options ov (opts s))))
                       None]))
    as [r1 [r2 [r3 [r4 [r5 Hw]]]]].
  rewrite Hw. apply wiring_no_plugin_call.
Qed.

(** MICRO_PLUGIN is "a,,b": the first [Init] on "orders" loads and
    initialises "a", then "b", then parses the flags. *)
Lemma Init_loads_configured_plugins_witness :
  Init plugins_env [] orders []
  = Ret orders_initialised
        (plugin_steps [("a", "a"); ("b", "b")] ++ orders_init_trace)
  /\ configured_plugins plugins_env = ["a"; "b"]
  /\ exists cfgs c rest,
       length cfgs = 2 /\
       plugin_steps [("a", "a"); ("b", "b")] ++ orders_init_trace
       = [] ++ plugin_steps (combine ["a"; "b"] cfgs)
            ++ EvCmdInit c None :: rest /\
       Forall (fun ev => is_plugin_call ev = false) rest.
Proof.
  assert (H : Init plugins_env [] orders []
              = Ret orders_initialised
                    (plugin_steps [("a", "a"); ("b", "b")]
                     ++ orders_init_trace)) by reflexivity.
  split; [exact H|]. split; [reflexivity|].
  exact (Init_loads_configured_plugins plugins_env [] orders [] eq_refl H).
Defined.

Lemma concat_repeat_nil {A} (n : nat) : concat (repeat (@nil A) n) = [].
Proof. induction n; simpl; auto. Qed.

(** X9. [Init] without overrides is idempotent: after any [Init] call, further
    [Init] calls without overrides change neither the service nor the
    trace. *)
Theorem Init_idempotent (env : Env) (ov : list Option) (n : nat)
        (s : service) (t : trace) :
  Init_calls env (ov :: repeat [] n) s t = Init env ov s t.
Proof.
  rewrite Init_calls_cons, concat_repeat_nil.
  destruct (Init env ov s t) as [s1 t1|t1|t1] eqn:HI; try reflexivity.
  pose proof (Init_closes_gate env ov s t HI) as Hd.
  destruct s1 as [o1 d1]. simpl in *. now subst d1.
Qed.

(** X10. [Init] leaves the lifecycle hooks, the context and the signal flag as
    its overrides set them: neither the plugins, nor the flag parse, nor
    the wiring touches them. *)
Theorem Init_keeps_lifecycle_options (env : Env) (ov : list Option)
        (s s1 : service) (t t1 : trace) :
  Init env ov s t = Ret s1 t1 ->
  let o := apply_options ov (opts s) in
  BeforeStart (opts s1) = BeforeStart o /\
  AfterStart (opts s1) = AfterStart o /\
  BeforeStop (opts s1) = BeforeStop o /\
  AfterStop (opts s1) = AfterStop o /\
  Context (opts s1) = Context o /\
  Signal (opts s1) = Signal o.
Proof.
  intros HI o. destruct (once_done s) eqn:Hd.
  - rewrite (Init_done env ov s t Hd) in HI. injection HI as <- _.
    simpl. auto 10.
  - destruct (Init_returns_shape env ov s t Hd HI)
      as [cfgs [c' [b [_ [_ [-> _]]]]]].
    fold o. unfold default_app_name.
    destruct (Nat.eqb (String.length (App_Name (Cmd o))) 0); simpl; auto 10.
Qed.

(** The hooks of "orders" are the same after its first [Init]. *)
Lemma Init_keeps_lifecycle_options_witness :
  map hook_label
      (BeforeStart (with_Cmd (mkCmd "orders") (opts orders_all_hooks)))
  = ["A"] /\
  BeforeStart (with_Cmd (mkCmd "orders") (opts orders_all_hooks))
  = BeforeStart (apply_options [] (opts orders_all_hooks_fresh)).
Proof.
  split; [reflexivity|].
  exact (proj1 (@Init_keeps_lifecycle_options quiet_env []
                  orders_all_hooks_fresh
                  (mkService (with_Cmd (mkCmd "orders")
                                       (opts orders_all_hooks)) true)
                  []
                  (EvCmdInit (mkCmd "orders") None
                   :: wiring (with_Cmd (mkCmd "orders")
                                       (opts orders_all_hooks))
                             None None None None None)
                  eq_refl)).
Defined.

Lemma plugin_steps_no_table (pcs : list (string * plugin_config)) :
  Forall (fun ev => is_table_binding ev = false) (plugin_steps pcs).
Proof.
  induction pcs as [|pc pcs IH]; simpl; repeat constructor. exact IH.
Qed.

(** X11. The store's table is bound, once, to the application's name: the name
    set explicitly when there is one, else the name the server had before
    the flags were parsed, provided the flag parse leaves the command's own
    name alone.  A server the flag parse substitutes does not rename the
    table. *)
Theorem Init_binds_table_to_app_name (env : Env) (ov : list Option)
        (s s1 : service) (t t1 : trace) :
  once_done s = false ->
  Init env ov s t = Ret s1 t1 ->
  (forall tr c b c' b', Cmd_Init env tr c b = Ok (c', b') -> c' = c) ->
  let o := apply_options ov (opts s) in
  let name := if Nat.eqb (String.length (App_Name (Cmd o))) 0
              then srv_Name (Server o)
              else App_Name (Cmd o) in
  exists pre r post,
    t1 = t ++ pre ++ EvStoreInit (Store (opts s1)) (Table name) r :: post /\
    Forall (fun ev => is_table_binding ev = false) pre /\
    Forall (fun ev => is_table_binding ev = false) post.
Proof.
  intros Hd HI Hcmd o name.
  destruct (Init_returns_shape env ov s t Hd HI)
    as [cfgs [c' [b [_ [Hc [Hs1 Ht1]]]]]].
  cbv zeta in Hc. fold o in Hc, Hs1, Ht1.
  pose proof (Hcmd _ _ _ _ _ Hc) as Hc'.
  assert (Hname : App_Name (Cmd (opts s1)) = name).
  { rewrite Hs1. simpl. rewrite Hc'. subst name. unfold default_app_name.
    now destruct (Nat.eqb (String.length (App_Name (Cmd o))) 0). }
  destruct (wiring_at_shape env (opts s1)
              (t ++ plugin_steps (combine (configured_plugins env) cfgs)
                 ++ [EvCmdInit (Cmd (default_app_name o)) None]))
    as [r1 [r2 [r3 [r4 [r5 Hw]]]]].
  rewrite Hw in Ht1. unfold wiring in Ht1. rewrite Hname in Ht1.
  exists (plugin_steps (combine (configured_plugins env) cfgs)
          ++ [EvCmdInit (Cmd (default_app_name o)) None]), r1.
  eexists. split.
  - rewrite Ht1, <- !app_assoc. simpl. reflexivity.
  - split.
    + apply Forall_app. split; [apply plugin_steps_no_table|].
      repeat constructor.
    + repeat constructor.
Qed.

(** The flags replace the server of "orders" by one named "orders-v2": the
    service answers to the new name, the table is still "orders". *)
Lemma Init_binds_table_to_app_name_witness :
  Init renaming_flags_env [] orders []
  = Ret orders_v2_initialised
        (EvCmdInit (mkCmd "orders") None
         :: wiring (opts orders_v2_initialised) None None None None None) /\
  Name orders_v2_initialised = "orders-v2" /\
  exists pre r post,
    EvCmdInit (mkCmd "orders") None
    :: wiring (opts orders_v2_initialised) None None None None None
    = [] ++ pre ++ EvStoreInit (Store (opts orders_v2_initialised))
                     (Table "orders") r :: post /\
    Forall (fun ev => is_table_binding ev = false) pre /\
    Forall (fun ev => is_table_binding ev = false) post.
Proof.
  assert (HI : Init renaming_flags_env [] orders []
               = Ret orders_v2_initialised
                     (EvCmdInit (mkCmd "orders") None
                      :: wiring (opts orders_v2_initialised)
                                None None None None None)) by reflexivity.
  split; [exact HI|]. split; [reflexivity|].
  apply (@Init_binds_table_to_app_name renaming_flags_env [] orders
           orders_v2_initialised [] _ eq_refl HI).
  intros tr c b c' b' H. now injection H as <- _.
Defined.

(** X12. Composition of [newService] and [Init]: when the flag parse leaves the
    client alone, the client handed to the auth, registry, runtime and
    store collaborators is the one [newService] built, with the auth
    credential outermost, and it is the client the service keeps. *)
Theorem newService_Init_wires_wrapped_client (env : Env)
        (newOptions : list Option -> Options) (ov0 : list Option)
        (s1 : service) (t t1 : trace) :
  (forall tr c b c' b',
     Cmd_Init env tr c b = Ok (c', b') -> b_Client b' = b_Client b) ->
  Init env [] (newService newOptions ov0) t = Ret s1 t1 ->
  let o0 := newOptions ov0 in
  let n := srv_Name (Server o0) in
  let wrapped := AuthClient n (srv_Id (Server o0))
                   (TraceCall n (FromService n (Client o0))) in
  service_Client s1 = wrapped /\
  exists pre r1 r2 r3 r4 r5,
    t1 = pre ++ [EvStoreInit (Store (opts s1))
                   (Table (App_Name (Cmd (opts s1)))) r1;
                 EvAuthInit (Auth (opts s1)) (Auth_WithClient wrapped) r2;
                 EvRegistryInit (Registry (opts s1)) wrapped r3;
                 EvRuntimeInit (Runtime (opts s1)) wrapped r4;
                 EvStoreInit (Store (opts s1)) (Store_WithClient wrapped) r5].
Proof.
  intros Hcmd HI o0 n wrapped.
  assert (Hd : once_done (newService newOptions ov0) = false) by reflexivity.
  destruct (Init_returns_shape env [] (newService newOptions ov0) t Hd HI)
    as [cfgs [c' [b [_ [Hc [Hs1 Ht1]]]]]].
  cbv zeta in Hc. pose proof (Hcmd _ _ _ _ _ Hc) as Hb.
  assert (Hcl : Client (opts s1) = wrapped).
  { rewrite Hs1. simpl. rewrite Hb. unfold default_app_name.
    destruct (Nat.eqb _ 0); reflexivity. }
  split; [exact Hcl|].
  match type of Ht1 with
  | _ = _ ++ _ ++ _ :: wiring_at _ _ ?tr =>
      destruct (wiring_at_shape env (opts s1) tr)
        as [r1 [r2 [r3 [r4 [r5 Hw]]]]]
  end.
  rewrite Hw in Ht1. unfold wiring in Ht1. rewrite Hcl in Ht1.
  eexists. exists r1, r2, r3, r4, r5.
  rewrite Ht1. rewrite app_assoc.
  match goal with
  | |- (?a ++ ?x :: ?l) = _ => change (a ++ x :: l) with (a ++ [x] ++ l)
  end.
  rewrite app_assoc. reflexivity.
Qed.

(** The service "orders" of [newService], initialised with quiet
    collaborators, keeps the client wrapped auth over trace over
    from-service. *)
Lemma newService_Init_wires_wrapped_client_witness :
  service_Client orders_initialised
  = AuthClient "orders" "i1"
      (TraceCall "orders" (FromService "orders" (BaseClient "rpc"))).
Proof.
  refine (proj1 (@newService_Init_wires_wrapped_client quiet_env
                   (fun ov => apply_options ov (demo_options "orders" "i1"))
                   [] orders_initialised [] orders_init_trace _ eq_refl)).
  intros tr c b c' b' H. now injection H as _ <-.
Defined.

(* ================================================================== *)
(** ** [Run], every way it ends *)

Lemma hook_events_hooks (hs : list hook) (t : trace) :
  Forall (fun ev => is_hook ev = true) (hook_events hs t).
Proof.
  revert t. induction hs as [|h hs IH]; intros t; simpl; constructor; auto.
Qed.

Lemma ok_events_hooks (hs : list hook) :
  Forall (fun ev => is_hook ev = true) (map ok_event hs).
Proof. induction hs; simpl; constructor; auto. Qed.

(** What [Stop] adds to the trace: hooks, one [Server.Stop], hooks. *)
Lemma Stop_events (env : Env) (s : service) (t : trace) (r : option error)
      (sp : list event) :
  Stop env s t = Ret r (t ++ sp) ->
  exists ev1 rs tail,
    sp = ev1 ++ EvServerStop (Server (opts s)) rs :: tail /\
    Forall (fun ev => is_hook ev = true) ev1 /\
    Forall (fun ev => is_hook ev = true) tail.
Proof.
  rewrite Stop_unfold. cbv zeta.
  destruct (Server_Stop env _ (Server (opts s))) as [e|].
  - intros [= _ H]. apply app_inv_head in H. subst sp.
    exists (hook_events (BeforeStop (opts s)) t), (Some e), [].
    repeat split; auto using hook_events_hooks.
  - intros [= _ H]. apply app_inv_head in H. subst sp.
    do 3 eexists. repeat split; auto using hook_events_hooks.
Qed.

Lemma Stop_returns_extension (env : Env) (s : service) (t : trace) :
  exists r sp, Stop env s t = Ret r (t ++ sp).
Proof.
  rewrite Stop_unfold. cbv zeta.
  destruct (Server_Stop env _ (Server (opts s))); eauto.
Qed.

Lemma Run_serve_cases (env : Env) (s : service) (t : trace) :
  exists new, serve_run env s t (Run_serve env s t) new.
Proof.
  destruct (registerAuthAccount_trace env s t) as [r [idn [Hreg Hid]]].
  unfold Run_serve, bind at 1. rewrite Hreg.
  destruct r as [e|].
  { exists idn. now apply serve_identity_failed. }
  destruct (Start_cases env s (t ++ idn)) as [r [st [Hst Ho]]].
  unfold bind at 1. rewrite Hst.
  destruct r as [e|].
  { exists (idn ++ st). unfold ret. rewrite <- app_assoc.
    now apply serve_start_failed. }
  unfold bind, await_shutdown. fold (wakes env (opts s) ((t ++ idn) ++ st)).
  rewrite <- app_assoc.
  destruct (wakes env (opts s) (t ++ idn ++ st)) eqn:Hw.
  - destruct (Stop_returns_extension env s
                ((t ++ idn ++ st) ++ [EvShutdownRequested]))
      as [r [sp Hsp]].
    rewrite Hsp. exists (idn ++ st ++ EvShutdownRequested :: sp).
    rewrite <- !app_assoc in *. simpl in *.
    apply serve_stopped; auto.
    rewrite <- !app_assoc. simpl. exact Hsp.
  - exists (idn ++ st). now apply serve_blocked.
Qed.

Lemma Run_cases (env : Env) (s : service) (t : trace) :
  exists new, Run_shape env s t (Run env s t) new.
Proof.
  rewrite Run_unfold. cbv zeta.
  fold (handle_event env s t).
  change [handle_event env s t; EvSetMutexProfileFraction 5;
          EvSetBlockProfileRate 1] with (profiler_prelude env s t).
  destruct (Profile (opts s)) as [p|] eqn:Hp.
  - destruct (Profile_Start env _ p) as [e|] eqn:Hstart.
    + eexists. now apply Run_profile_failed.
    + change (t ++ [handle_event env s t; EvSetMutexProfileFraction 5;
                    EvSetBlockProfileRate 1; EvProfileStart p None])
        with (t ++ profiler_prelude env s t ++ [EvProfileStart p None]).
      destruct (Run_serve_cases env s
                  (t ++ profiler_prelude env s t ++ [EvProfileStart p None]))
        as [snew Hs].
      destruct (Run_serve env s _) as [r tr|tr|tr] eqn:Hrun.
      * eexists. eapply Run_profiled_returned; eassumption.
      * inversion Hs.
      * eexists. eapply Run_profiled_blocked; eassumption.
  - destruct (Run_serve_cases env s (t ++ [handle_event env s t]))
      as [snew Hs].
    eexists. eapply Run_plain; eassumption.
Qed.

(** The trace an outcome carries is the old one followed by what was
    added. *)
Lemma serve_run_trace (env : Env) (s : service) (t : trace)
      (out : outcome (option error)) (snew : list event) :
  serve_run env s t out snew -> trace_of out = t ++ snew.
Proof.
  intros H; destruct H; simpl; rewrite <- ?app_assoc; reflexivity.
Qed.

Lemma Run_shape_trace (env : Env) (s : service) (t : trace)
      (out : outcome (option error)) (new : list event) :
  Run_shape env s t out new -> trace_of out = t ++ new.
Proof.
  intros H; destruct H as [p e Hp|out snew Hp Hs|p r tr snew rs Hp Hs
                           |p tr snew Hp Hs]; simpl.
  - reflexivity.
  - rewrite (serve_run_trace Hs), <- app_assoc. reflexivity.
  - apply serve_run_trace in Hs. simpl in Hs. rewrite Hs.
    rewrite <- !app_assoc. reflexivity.
  - apply serve_run_trace in Hs. simpl in Hs. rewrite Hs.
    rewrite <- !app_assoc. reflexivity.
Qed.

Lemma identity_trace_auth (r : option error) (idn : list event) :
  identity_trace r idn -> Forall (fun ev => is_auth_event ev = true) idn.
Proof. intros H; inversion H; repeat constructor. Qed.

(** What [Start] adds to the trace is hooks and at most one
    [Server.Start]. *)
Lemma Start_outcome_kinds (env : Env) (s : service) (t : trace)
      (r : option error) (st : list event) :
  Start_outcome env s t r st ->
  Forall (fun ev => is_hook ev = true \/ is_ServerStart ev = true) st /\
  count is_ServerStart st <= 1.
Proof.
  assert (Hok : forall hs,
             Forall (fun ev => is_hook ev = true \/ is_ServerStart ev = true)
                    (map ok_event hs)).
  { intros hs. eapply Forall_impl; [|apply ok_events_hooks]. auto. }
  assert (Hc : forall hs, count is_ServerStart (map ok_event hs) = 0).
  { intros hs. apply (count_none _ (ok_events_hooks hs)).
    intros ev; destruct ev; simpl; congruence. }
  intros H; destruct H; split;
    try (count_events; rewrite ?Hc; lia);
    apply Forall_app; split; auto;
    try (constructor; [auto|]); try (apply Forall_app; split); auto 8.
Qed.

Ltac kind_excl :=
  let ev := fresh "ev" in
  intros ev; destruct ev; simpl; intuition congruence.

Lemma Start_up_shape (env : Env) (s : service) (t : trace)
      (st : list event) :
  Start_outcome env s t None st ->
  st = map ok_event (BeforeStart (opts s))
       ++ EvServerStart (Server (opts s)) None
          :: map ok_event (AfterStart (opts s)).
Proof. intros H; inversion H; reflexivity. Qed.

(** What a [Start] that returns nil did. *)
Lemma Start_nil_trace (env : Env) (s : service) (t t' : trace) :
  Start env s t = Ret None t' ->
  t' = t ++ map ok_event (BeforeStart (opts s))
         ++ EvServerStart (Server (opts s)) None
            :: map ok_event (AfterStart (opts s)).
Proof.
  intros H. destruct (Start_cases env s t) as [r [new [Hrun Ho]]].
  rewrite Hrun in H. injection H as -> <-.
  inversion Ho; subst. reflexivity.
Qed.

(** What a [Stop] that returns nil did. *)
Lemma Stop_nil_trace (env : Env) (s : service) (t t' : trace) :
  Stop env s t = Ret None t' ->
  t' = t ++ map ok_event (BeforeStop (opts s))
         ++ EvServerStop (Server (opts s)) None
            :: map ok_event (AfterStop (opts s)).
Proof.
  rewrite Stop_unfold. cbv zeta.
  destruct (Server_Stop env _ (Server (opts s))) as [e|] eqn:Hsrv;
    [discriminate|].
  intros H. injection H as Hr <-.
  destruct (last_failure (hook_results (hook_events (AfterStop (opts s)) _)))
    eqn:H2; [discriminate|]. simpl in Hr.
  apply last_failure_none_iff in Hr.
  rewrite (hook_events_all_succeed _ _ Hr) in *.
  apply last_failure_none_iff in H2.
  rewrite (hook_events_all_succeed _ _ H2).
  reflexivity.
Qed.

(** [Run_serve] with its monadic steps written out. *)
Lemma Run_serve_unfold (env : Env) (s : service) (t : trace) :
  Run_serve env s t
  = match registerAuthAccount env s t with
    | Ret (Some e) t1 => Ret (Some e) t1
    | Ret None t1 =>
        match Start env s t1 with
        | Ret (Some e) t2 => Ret (Some e) t2
        | Ret None t2 =>
            if wakes env (opts s) t2
            then Stop env s (t2 ++ [EvShutdownRequested])
            else Hang t2
        | Exit t2 => Exit t2
        | Hang t2 => Hang t2
        end
    | Exit t1 => Exit t1
    | Hang t1 => Hang t1
    end.
Proof.
  unfold Run_serve, bind at 1.
  destruct (registerAuthAccount env s t) as [[e|] t1|t1|t1]; try reflexivity.
  unfold bind at 1.
  destruct (Start env s t1) as [[e|] t2|t2|t2]; try reflexivity.
  unfold bind, await_shutdown, wakes.
  destruct (Signal (opts s) && signal_pending env t2
            || Context_Done env t2 (Context (opts s))); reflexivity.
Qed.

(** When [registerAuthAccount] returns nil it made its three calls: the
    account was generated, the token issued on its id and secret, and the
    token installed. *)
Lemma registerAuthAccount_nil (env : Env) (s : service) (t t' : trace) :
  registerAuthAccount env s t = Ret None t' ->
  exists acc tk r3, t' = t ++ identity_calls s acc tk r3.
Proof.
  unfold registerAuthAccount, identity_calls, bind, call, ret,
    service_Options, service_Server.
  destruct (Auth_Generate env t _ _ _ _) as [acc|e]; [|discriminate].
  destruct (Auth_Token env _ _ _ _) as [tk|e]; [|discriminate].
  intros [= <-]. exists acc, tk. eexists.
  rewrite <- !app_assoc. reflexivity.
Qed.

(** [Run_serve] returns nil only after the whole cycle: identity, every
    start hook around [Server.Start], the shutdown request, every stop
    hook around [Server.Stop], all without failure. *)
Lemma Run_serve_nil (env : Env) (s : service) (t tr : trace) :
  Run_serve env s t = Ret None tr ->
  exists acc tk r3, tr = t ++ identity_calls s acc tk r3 ++ clean_cycle s.
Proof.
  rewrite Run_serve_unfold.
  destruct (registerAuthAccount env s t) as [[e|] t1|t1|t1] eqn:Hreg;
    try discriminate.
  destruct (registerAuthAccount_nil env s t Hreg) as [acc [tk [r3 ->]]].
  destruct (Start env s _) as [[e|] t2|t2|t2] eqn:Hst; try discriminate.
  apply Start_nil_trace in Hst. subst t2.
  destruct (wakes env (opts s) _); [|discriminate].
  intros Hstop. apply Stop_nil_trace in Hstop. subst tr.
  exists acc, tk, r3. unfold clean_cycle.
  repeat (rewrite <- ?app_assoc; simpl). reflexivity.
Qed.

(** X13. [Run] returns nil only after one whole cycle, and then what it
    did is exactly this, in this order: it registered the debug handler;
    with a profiler, set the two profiling rates and started it; generated
    the account, got the token for its id and secret and installed it; ran
    every BeforeStart hook, [Server.Start], every AfterStart hook; was
    asked to shut down; ran every BeforeStop hook, [Server.Stop], every
    AfterStop hook; with a profiler, stopped it.  Every hook and both
    server calls succeeded. *)
Theorem Run_nil_means_clean (env : Env) (s : service) (t t' : trace) :
  Run env s t = Ret None t' ->
  exists acc tk r3,
    match Profile (opts s) with
    | None =>
        t' = t ++ handle_event env s t
               :: identity_calls s acc tk r3 ++ clean_cycle s
    | Some p =>
        exists rs,
          t' = t ++ profiler_prelude env s t
                 ++ EvProfileStart p None
                    :: identity_calls s acc tk r3 ++ clean_cycle s
                       ++ [EvProfileStop p rs]
    end.
Proof.
  rewrite Run_unfold. cbv zeta. fold (handle_event env s t).
  destruct (Profile (opts s)) as [p|].
  - destruct (Profile_Start env _ p) as [e|]; [discriminate|].
    destruct (Run_serve env s _) as [r tr|tr|tr] eqn:Hs; try discriminate.
    intros [= -> <-].
    destruct (Run_serve_nil env s _ Hs) as [acc [tk [r3 ->]]].
    exists acc, tk, r3. eexists. unfold profiler_prelude.
    rewrite <- ?app_assoc. simpl. rewrite <- ?app_assoc. reflexivity.
  - intros Hs.
    destruct (Run_serve_nil env s _ Hs) as [acc [tk [r3 ->]]].
    exists acc, tk, r3. rewrite <- ?app_assoc. reflexivity.
Qed.

(** "orders" with a profiler and hooks that succeed, stopped by its
    context: [Run] returns nil after the whole cycle. *)
Lemma Run_nil_means_clean_witness :
  Run quiet_env orders_profiled []
  = Ret None
        [EvServerHandle (mkServer "orders" "i1" []) None;
         EvSetMutexProfileFraction 5; EvSetBlockProfileRate 1;
         EvProfileStart "pprof" None;
         EvAuthGenerate (mkAuth "auth" "ns") "orders-i1" ["service"] "ns"
           (Ok (mkAccount "id-orders-i1" "secret"));
         EvAuthToken (mkAuth "auth" "ns") "id-orders-i1" "secret"
           (Ok "token-id-orders-i1");
         EvAuthInit (mkAuth "auth" "ns") (ClientToken "token-id-orders-i1")
           None;
         EvHook "A" None; EvServerStart (mkServer "orders" "i1" []) None;
         EvHook "B" None; EvShutdownRequested;
         EvHook "C" None; EvServerStop (mkServer "orders" "i1" []) None;
         EvHook "D" None; EvProfileStop "pprof" None] /\
  exists acc tk r3 rs,
    trace_of (Run quiet_env orders_profiled [])
    = [] ++ profiler_prelude quiet_env orders_profiled []
         ++ EvProfileStart "pprof" None
            :: identity_calls orders_profiled acc tk r3
               ++ clean_cycle orders_profiled ++ [EvProfileStop "pprof" rs].
Proof.
  assert (H : Run quiet_env orders_profiled []
              = Ret None (trace_of (Run quiet_env orders_profiled [])))
    by reflexivity.
  split; [reflexivity|].
  destruct (Run_nil_means_clean quiet_env orders_profiled [] H)
    as [acc [tk [r3 [rs Ht]]]].
  exists acc, tk, r3, rs. exact Ht.
Defined.

Lemma count_In (p : event -> bool) (ev : event) (l : list event) :
  In ev l -> p ev = true -> 1 <= count p l.
Proof.
  induction l as [|x l IH]; simpl; [tauto|].
  intros [->|Hin] Hp; rewrite count_cons.
  - rewrite Hp. lia.
  - specialize (IH Hin Hp). destruct (p x); lia.
Qed.

Lemma count_identity (p : event -> bool) (r : option error)
      (idn : list event) :
  identity_trace r idn ->
  (forall ev, is_auth_event ev = true -> p ev = false) ->
  count p idn = 0.
Proof.
  intros H Hp. exact (count_none p (identity_trace_auth H) Hp).
Qed.

Lemma count_hooks (p : event -> bool) (l : list event) :
  Forall (fun ev => is_hook ev = true) l ->
  (forall ev, is_hook ev = true -> p ev = false) ->
  count p l = 0.
Proof. intros H Hp. exact (count_none p H Hp). Qed.

Lemma count_Start (p : event -> bool) (env : Env) (s : service) (t : trace)
      (r : option error) (st : list event) :
  Start_outcome env s t r st ->
  (forall ev, is_hook ev = true \/ is_ServerStart ev = true -> p ev = false) ->
  count p st = 0.
Proof.
  intros H Hp. exact (count_none p (proj1 (Start_outcome_kinds H)) Hp).
Qed.

(** [Server.Start] and [Server.Stop] in what [Run_serve] does. *)
Lemma serve_run_stops (env : Env) (s : service) (t : trace)
      (out : outcome (option error)) (snew : list event) :
  serve_run env s t out snew ->
  count is_ServerStart snew <= 1 /\
  count is_ServerStop snew <= 1 /\
  count is_profile_event snew = 0 /\
  (count is_ServerStop snew = 1 ->
   exists a b c,
     snew = a ++ EvServerStart (Server (opts s)) None
              :: b ++ EvShutdownRequested :: c /\
     count is_ServerStop a = 0 /\ count is_ServerStop b = 0).
Proof.
  intros H.
  destruct H as [e idn Hid|e idn st Hid Ho|idn st Hid Ho Hw
                 |idn st sp r Hid Ho Hw Hstop].
  - rewrite !(count_identity _ Hid) by kind_excl.
    repeat split; try lia.
  - count_events. rewrite !(count_identity _ Hid) by kind_excl.
    rewrite !(count_Start is_ServerStop Ho) by kind_excl.
    rewrite !(count_Start is_profile_event Ho) by kind_excl.
    pose proof (proj2 (Start_outcome_kinds Ho)).
    repeat split; try lia.
  - count_events. rewrite !(count_identity _ Hid) by kind_excl.
    rewrite !(count_Start is_ServerStop Ho) by kind_excl.
    rewrite !(count_Start is_profile_event Ho) by kind_excl.
    pose proof (proj2 (Start_outcome_kinds Ho)).
    repeat split; try lia.
  - destruct (@Stop_events env s _ r sp Hstop)
      as [ev1 [rs [tail [-> [H1 H2]]]]].
    pose proof (proj2 (Start_outcome_kinds Ho)) as Hst.
    pose proof (Start_up_shape Ho) as Hshape.
    count_events. rewrite !(count_identity _ Hid) by kind_excl.
    rewrite !(count_Start is_ServerStop Ho) by kind_excl.
    rewrite !(count_Start is_profile_event Ho) by kind_excl.
    rewrite !(count_hooks _ H1) by kind_excl.
    rewrite !(count_hooks _ H2) by kind_excl.
    repeat split; try lia.
    intros _. rewrite Hshape.
    exists (idn ++ map ok_event (BeforeStart (opts s))),
           (map ok_event (AfterStart (opts s))),
           (ev1 ++ EvServerStop (Server (opts s)) rs :: tail).
    split; [now rewrite <- !app_assoc|].
    count_events. rewrite (count_identity _ Hid) by kind_excl.
    rewrite !(count_hooks _ (ok_events_hooks _)) by kind_excl.
    split; reflexivity.
Qed.

(** X14. [Run] calls [Server.Start] at most once and [Server.Stop] at most
    once, and it calls [Server.Stop] only after [Server.Start] succeeded
    and the shutdown was requested, in that order. *)
Theorem Run_stop_after_start (env : Env) (s : service) (t : trace) :
  exists new,
    trace_of (Run env s t) = t ++ new /\
    count is_ServerStart new <= 1 /\
    count is_ServerStop new <= 1 /\
    (count is_ServerStop new = 1 ->
     exists a b c,
       new = a ++ EvServerStart (Server (opts s)) None
               :: b ++ EvShutdownRequested :: c /\
       count is_ServerStop a = 0 /\ count is_ServerStop b = 0).
Proof.
  destruct (Run_cases env s t) as [new Hshape].
  exists new. split; [exact (Run_shape_trace Hshape)|].
  destruct Hshape as [p e Hp|out snew Hp Hs|p r tr snew rs Hp Hs
                      |p tr snew Hp Hs];
    unfold profiler_prelude; simpl app.
  - count_events. repeat split; try lia.
  - destruct (serve_run_stops Hs) as [K1 [K2 [_ K3]]].
    count_events. repeat split; try lia.
    intros H1. destruct (K3 H1) as [a [b [c [-> [Ha Hb]]]]].
    eexists (_ :: a), b, c. split; [reflexivity|].
    count_events. split; [exact Ha | exact Hb].
  - destruct (serve_run_stops Hs) as [K1 [K2 [_ K3]]].
    count_events. repeat split; try lia.
    intros H1. assert (H1' : count is_ServerStop snew = 1) by lia.
    destruct (K3 H1') as [a [b [c [-> [Ha Hb]]]]].
    eexists (_ :: _ :: _ :: _ :: a), b, (c ++ _). split.
    + simpl. rewrite <- ?app_assoc. simpl. rewrite <- ?app_assoc.
      reflexivity.
    + count_events. split; [exact Ha | exact Hb].
  - destruct (serve_run_stops Hs) as [K1 [K2 [_ K3]]].
    count_events. repeat split; try lia.
    intros H1. destruct (K3 H1) as [a [b [c [-> [Ha Hb]]]]].
    eexists (_ :: _ :: _ :: _ :: a), b, c. split; [reflexivity|].
    count_events. split; [exact Ha | exact Hb].
Qed.

(** A whole cycle of "orders" with quiet collaborators: one
    [Server.Start], then the shutdown request, then one [Server.Stop]. *)
Lemma Run_stop_after_start_witness :
  count is_ServerStop (trace_of (Run quiet_env orders_profiled [])) = 1 /\
  exists new a b c,
    trace_of (Run quiet_env orders_profiled []) = [] ++ new /\
    new = a ++ EvServerStart (Server (opts orders_profiled)) None
            :: b ++ EvShutdownRequested :: c /\
    count is_ServerStop a = 0 /\ count is_ServerStop b = 0.
Proof.
  split; [reflexivity|].
  destruct (Run_stop_after_start quiet_env orders_profiled [])
    as [new [Htr [_ [_ Hstop]]]].
  assert (Hc : count is_ServerStop new = 1)
    by (simpl app in Htr; rewrite <- Htr; reflexivity).
  destruct (Hstop Hc) as [a [b [c [Hnew [Ha Hb]]]]].
  exists new, a, b, c. auto.
Defined.

(** When [Run_serve] blocks, the server is up and nothing asked it to
    stop. *)
Lemma serve_run_blocked (env : Env) (s : service) (t tr : trace)
      (snew : list event) :
  serve_run env s t (Hang tr) snew ->
  In (EvServerStart (Server (opts s)) None) snew /\
  count is_shutdown_request snew = 0 /\
  count is_ServerStop snew = 0 /\
  wakes env (opts s) tr = false.
Proof.
  intros H. inversion H as [| |idn st Hid Ho Hw|]; subst.
  pose proof (Start_up_shape Ho) as Hshape.
  split.
  - rewrite Hshape. apply in_or_app; right. apply in_or_app; right.
    now left.
  - count_events. rewrite !(count_identity _ Hid) by kind_excl.
    rewrite !(count_Start _ Ho) by kind_excl.
    repeat split; auto.
Qed.

(** X15. [Run] blocks only while serving: when it blocks, [Server.Start]
    has succeeded, no shutdown was requested, [Server.Stop] was not called,
    and neither an armed signal nor the context wakes it. *)
Theorem Run_blocks_only_serving (env : Env) (s : service) (t t' : trace) :
  Run env s t = Hang t' ->
  exists new,
    t' = t ++ new /\
    In (EvServerStart (Server (opts s)) None) new /\
    count is_shutdown_request new = 0 /\
    count is_ServerStop new = 0 /\
    wakes env (opts s) t' = false.
Proof.
  intros H. destruct (Run_cases env s t) as [new Hshape].
  pose proof (Run_shape_trace Hshape) as Htr.
  rewrite H in Hshape, Htr. simpl in Htr.
  exists new. split; [exact Htr|].
  inversion Hshape as [|out snew Hp Hs| |p tr snew Hp Hs]; subst;
    unfold profiler_prelude; simpl app;
    destruct (serve_run_blocked Hs) as [Hin [K1 [K2 Hw]]];
    count_events; rewrite K1, K2; repeat split; simpl; auto 10.
Qed.

(** No signal is armed and the context is never cancelled: [Run] on
    "orders" blocks with the server started. *)
Lemma Run_blocks_only_serving_witness :
  Run never_cancelled_env orders []
  = Hang (trace_of (Run never_cancelled_env orders [])) /\
  In (EvServerStart (Server (opts orders)) None)
     (trace_of (Run never_cancelled_env orders [])) /\
  count is_ServerStop (trace_of (Run never_cancelled_env orders [])) = 0.
Proof.
  assert (H : Run never_cancelled_env orders []
              = Hang (trace_of (Run never_cancelled_env orders [])))
    by reflexivity.
  split; [exact H|].
  destruct (Run_blocks_only_serving never_cancelled_env orders [] H)
    as [new [Hnew [Hin [_ [Hc _]]]]].
  simpl app in Hnew. rewrite Hnew. split; [exact Hin | exact Hc].
Defined.

(** X16. The profiler brackets the service.  Without a profiler [Run]
    neither sets a profiling rate nor calls a profiler.  With one, [Run]
    registers the debug handler, sets the mutex profile fraction to 5 and
    the block profile rate to 1, and starts the profiler; then either the
    profiler fails to start and [Run] returns its error having done
    nothing else, or it is stopped once, as the very last thing before
    [Run] returns, with no profiler call and no rate change in between. *)
Theorem Run_profile_bracket (env : Env) (s : service) (t : trace)
        (r : option error) (new : list event) :
  Run env s t = Ret r (t ++ new) ->
  match Profile (opts s) with
  | None => count is_profile_event new = 0
  | Some p =>
      (exists e,
         r = Some e /\
         new = [handle_event env s t; EvSetMutexProfileFraction 5;
                EvSetBlockProfileRate 1; EvProfileStart p (Some e)]) \/
      (exists mid rs,
         new = handle_event env s t
               :: EvSetMutexProfileFraction 5
               :: EvSetBlockProfileRate 1
               :: EvProfileStart p None :: mid ++ [EvProfileStop p rs] /\
         count is_profile_event mid = 0)
  end.
Proof.
  intros H. destruct (Run_cases env s t) as [new0 Hshape].
  pose proof (Run_shape_trace Hshape) as Htr.
  rewrite H in Hshape, Htr. simpl in Htr. apply app_inv_head in Htr.
  subst new0.
  inversion Hshape as [p e Hp|out snew Hp Hs|p r0 tr snew rs Hp Hs|]; subst;
    rewrite Hp; unfold profiler_prelude; simpl app.
  - left. eauto.
  - destruct (serve_run_stops Hs) as [_ [_ [K _]]].
    count_events. exact K.
  - right. destruct (serve_run_stops Hs) as [_ [_ [K _]]]. eauto.
Qed.

(** "orders" with a profiler that cannot start: [Run] registers the debug
    handler, sets the two rates, fails on the profiler and returns. *)
Lemma Run_profile_bracket_witness :
  Run (profiler_down_env "no pprof") orders_profiled []
  = Ret (Some "no pprof")
        [EvServerHandle (mkServer "orders" "i1" []) None;
         EvSetMutexProfileFraction 5; EvSetBlockProfileRate 1;
         EvProfileStart "pprof" (Some "no pprof")] /\
  ((exists e,
      Some "no pprof" = Some e /\
      [EvServerHandle (mkServer "orders" "i1" []) None;
       EvSetMutexProfileFraction 5; EvSetBlockProfileRate 1;
       EvProfileStart "pprof" (Some "no pprof")]
      = [handle_event (profiler_down_env "no pprof") orders_profiled [];
         EvSetMutexProfileFraction 5; EvSetBlockProfileRate 1;
         EvProfileStart "pprof" (Some e)]) \/
   (exists mid rs,
      [EvServerHandle (mkServer "orders" "i1" []) None;
       EvSetMutexProfileFraction 5; EvSetBlockProfileRate 1;
       EvProfileStart "pprof" (Some "no pprof")]
      = handle_event (profiler_down_env "no pprof") orders_profiled []
        :: EvSetMutexProfileFraction 5
        :: EvSetBlockProfileRate 1
        :: EvProfileStart "pprof" None :: mid ++ [EvProfileStop "pprof" rs] /\
      count is_profile_event mid = 0)).
Proof.
  split; [reflexivity|].
  exact (@Run_profile_bracket (profiler_down_env "no pprof") orders_profiled
           [] (Some "no pprof")
           [EvServerHandle (mkServer "orders" "i1" []) None;
            EvSetMutexProfileFraction 5; EvSetBlockProfileRate 1;
            EvProfileStart "pprof" (Some "no pprof")] eq_refl).
Defined.

(** When [Run_serve] returns with the server started and no shutdown
    requested, an AfterStart hook failed. *)
Lemma serve_run_unstopped (env : Env) (s : service) (t tr : trace)
      (r : option error) (snew : list event) :
  serve_run env s t (Ret r tr) snew ->
  1 <= count is_started snew ->
  count is_shutdown_request snew = 0 ->
  exists e l,
    r = Some e /\ In (EvHook l (Some e)) snew /\
    count is_ServerStop snew = 0.
Proof.
  intros H Hs Hq.
  inversion H as [e idn Hid|e idn st Hid Ho| |idn st sp r0 Hid Ho Hw Hstop];
    subst.
  - rewrite (count_identity _ Hid) in Hs by kind_excl. lia.
  - revert Hs. count_events. rewrite !(count_identity _ Hid) by kind_excl.
    rewrite (count_Start is_ServerStop Ho) by kind_excl.
    intros Hs.
    assert (Hok : forall hs, count is_started (map ok_event hs) = 0).
    { intros hs. apply (count_hooks _ (ok_events_hooks hs)). kind_excl. }
    inversion Ho as [pre h post e0 Hb Hall Hh|e0 Hall Hsrv
                     |pre h post e0 Hall Hsrv Ha Hpre Hh|]; subst;
      revert Hs; count_events; rewrite ?Hok; try lia.
    intros _. exists e, (hook_label h). repeat split.
    apply in_or_app; right. apply in_or_app; right. right.
    apply in_or_app; right. now left.
  - revert Hq. count_events. lia.
Qed.

(** X17. A failing AfterStart hook leaves the server up: when [Run] returns
    with [Server.Start] succeeded and no shutdown requested, it returns the
    error of a hook that failed, and [Server.Stop] was never called. *)
Theorem Run_unstopped_server (env : Env) (s : service) (t : trace)
        (r : option error) (new : list event) :
  Run env s t = Ret r (t ++ new) ->
  In (EvServerStart (Server (opts s)) None) new ->
  count is_shutdown_request new = 0 ->
  exists e l,
    r = Some e /\ In (EvHook l (Some e)) new /\
    count is_ServerStop new = 0.
Proof.
  intros H Hin Hq. destruct (Run_cases env s t) as [new0 Hshape].
  pose proof (Run_shape_trace Hshape) as Htr.
  rewrite H in Hshape, Htr. simpl in Htr. apply app_inv_head in Htr.
  subst new0.
  pose proof (count_In is_started _ _ Hin eq_refl) as Hs.
  inversion Hshape as [p e Hp|out snew Hp Hsv|p r0 tr snew rs Hp Hsv|]; subst;
    unfold profiler_prelude in *; simpl app in *.
  - revert Hs. count_events. lia.
  - revert Hs Hq. count_events. intros Hs Hq.
    destruct (serve_run_unstopped Hsv Hs Hq) as [e [l [-> [Hh K]]]].
    exists e, l. count_events. repeat split; auto.
  - revert Hs Hq. count_events. intros Hs Hq.
    assert (Hs' : 1 <= count is_started snew) by lia.
    assert (Hq' : count is_shutdown_request snew = 0) by lia.
    destruct (serve_run_unstopped Hsv Hs' Hq') as [e [l [-> [Hh K]]]].
    exists e, l. count_events. repeat split; auto; try lia.
    do 4 right. apply in_or_app. now left.
Qed.

(** AfterStart hooks [C, D, E] of "orders" where D fails: [Run] returns the
    error of D with the server started and never stopped. *)
Lemma Run_unstopped_server_witness :
  Run quiet_env orders_after_hooks []
  = Ret (Some "D failed") (trace_of (Run quiet_env orders_after_hooks [])) /\
  exists e l,
    Some "D failed" = Some e /\
    In (EvHook l (Some e)) (trace_of (Run quiet_env orders_after_hooks [])) /\
    count is_ServerStop (trace_of (Run quiet_env orders_after_hooks [])) = 0.
Proof.
  split; [reflexivity|].
  apply (@Run_unstopped_server quiet_env orders_after_hooks []
           (Some "D failed") (trace_of (Run quiet_env orders_after_hooks []))).
  - reflexivity.
  - vm_compute. auto 10.
  - reflexivity.
Defined.

(* ================================================================== *)
(** ** Role classification, both ways *)

(** X18. The role tells what the name holds: it is api exactly when "api"
    occurs in the name, web exactly when "web" occurs and "api" does not,
    service exactly when neither occurs; and it is always one of the
    three. *)
Theorem serviceType_characterised (name : string) :
  (serviceType name = "api" <-> occurs_in "api" name) /\
  (serviceType name = "web" <->
   occurs_in "web" name /\ ~ occurs_in "api" name) /\
  (serviceType name = "service" <->
   ~ occurs_in "api" name /\ ~ occurs_in "web" name) /\
  (serviceType name = "api" \/ serviceType name = "web"
   \/ serviceType name = "service").
Proof.
  unfold serviceType.
  destruct (Contains name "api") eqn:Ha;
    [apply Contains_occurs in Ha | apply Contains_not_occurs in Ha];
    (destruct (Contains name "web") eqn:Hw;
     [apply Contains_occurs in Hw | apply Contains_not_occurs in Hw]);
    repeat split; auto; try discriminate; tauto.
Qed.

(** "gateway" holds neither "api" nor "web" and is a plain service. *)
Lemma serviceType_characterised_witness :
  serviceType "gateway" = "service" /\
  ~ occurs_in "api" "gateway" /\ ~ occurs_in "web" "gateway".
Proof.
  split; [reflexivity|].
  exact (proj1 (proj1 (proj2 (proj2 (serviceType_characterised "gateway"))))
           eq_refl).
Defined.

(* ================================================================== *)
(** ** The names [Init] loads plugins under *)

Lemma has_byte_app (sep : ascii) (a b : string) :
  has_byte sep (a ++ b) = has_byte sep a || has_byte sep b.
Proof.
  induction a as [|c a IH]; simpl; [reflexivity|].
  now rewrite IH, orb_assoc.
Qed.

(** No piece of a split holds the separator. *)
Lemma split_from_pieces (sep : ascii) (s cur p : string) :
  has_byte sep cur = false ->
  In p (split_from sep cur s) -> has_byte sep p = false.
Proof.
  revert cur. induction s as [|c s IH]; intros cur Hcur; simpl.
  - intros [<-|[]]. exact Hcur.
  - destruct (Ascii.eqb c sep) eqn:Hc.
    + intros [<-|Hin]; [exact Hcur|]. now apply (IH EmptyString).
    + apply IH. rewrite has_byte_app, Hcur. simpl. now rewrite Hc.
Qed.

Lemma Split_pieces (s p : string) (sep : ascii) :
  In p (Split s sep) -> has_byte sep p = false.
Proof. unfold Split. now apply split_from_pieces. Qed.

Lemma load_plugins_names (env : Env) (ps : list string) :
  (forall p, In p ps -> has_byte "," p = false) ->
  all_events plugin_name_ok (load_plugins env ps).
Proof.
  induction ps as [|p ps IH]; intros Hps; cbn [load_plugins].
  - apply all_events_ret.
  - assert (IH' : all_events plugin_name_ok (load_plugins env ps))
      by (apply IH; intros q Hq; apply Hps; now right).
    destruct (Nat.eqb (String.length p) 0) eqn:Hlen; [exact IH'|].
    apply all_events_bind.
    + apply all_events_call. intros r. simpl. split.
      * unfold nonempty. now rewrite Hlen.
      * apply Hps. now left.
    + intros [c|e].
      * apply all_events_bind; [apply all_events_call; intros; exact I|].
        intros [e|]; [apply all_events_Fatal; exact I | exact IH'].
      * apply all_events_Fatal. exact I.
Qed.

(** X8. Whatever [Init] does, it never loads a plugin under an empty name or
    under a name that holds a comma. *)
Theorem Init_plugin_names (env : Env) (ov : list Option) (s : service)
        (t : trace) :
  exists new,
    trace_of (Init env ov s t) = t ++ new /\ Forall plugin_name_ok new.
Proof.
  assert (H : all_events plugin_name_ok (Init env ov s)).
  { unfold Init. destruct (once_done s); [apply all_events_ret|].
    apply all_events_bind; [|intros; apply all_events_ret].
    unfold Init_once. apply all_events_bind.
    - unfold Init_bootstrap. apply all_events_bind.
      + apply load_plugins_names. intros p Hp.
        exact (Split_pieces _ _ _ Hp).
      + intros _. apply all_events_bind;
          [apply all_events_call; intros; exact I|].
        intros [[c' b]|e]; [apply all_events_ret|].
        apply all_events_Fatal. exact I.
    - intros o'. unfold Init_wire.
      repeat (apply all_events_bind;
              [apply all_events_call; intros; exact I | intros _]).
      apply all_events_ret. }
  exact (H t).
Qed.
